(** * Probabilistic phenotyping NLP pipeline: a shallow embedding

    The development follows the Python sources
    [phenotyping_module.py], [nlp_pipeline.py] and [db_writer.py].

    - Python [str] values are [string]s, read as the bytes of their UTF-8
      text; [lower] and [strip] act on the ASCII range and leave other
      bytes alone; the [re.I] flag folds the two cases of an ASCII letter
      and the two letters outside ASCII that match [s] and [i].
    - Python [dict]s are [gmap]s; a [defaultdict(list)] is a [gmap] read
      with [default []]. A loop over the items of a dict is a [map_fold];
      its order is not the insertion order, and the maps it builds here do
      not depend on it.
    - [float] scores are exact rationals ([Qc]): the rounding of IEEE
      doubles is not part of the model.
    - spaCy's [Doc] is a record of tokens and entity spans; the statistical
      model that produces it is a parameter [nlp : string -> Doc].
    - calls to [logging] and [print] are left out. *)

From Stdlib Require Import ZArith QArith Qcanon Lqa Ascii String List Lia.
From stdpp Require Import base option list strings gmap fin_maps.

Local Open Scope Z_scope.
Local Open Scope string_scope.

#[local] Set Warnings "-clear-no-such-hyp".

(** ** Python string operations *)

Module pystr.

(** [c.lower()] for one character. *)
Definition lower_ascii (c : ascii) : ascii :=
  let n := nat_of_ascii c in
  if ((65 <=? n) && (n <=? 90))%nat then ascii_of_nat (n + 32) else c.

(** [s.lower()] *)
Fixpoint lower (s : string) : string :=
  match s with
  | EmptyString => EmptyString
  | String c s' => String (lower_ascii c) (lower s')
  end.

(** The characters [str.strip()] removes: tab, line feed, vertical tab,
    form feed, carriage return, the four separators 0x1c-0x1f and space. *)
Definition isspace (c : ascii) : bool :=
  let n := nat_of_ascii c in
  (((9 <=? n) && (n <=? 13)) || ((28 <=? n) && (n <=? 32)))%nat.

Fixpoint lstrip (s : string) : string :=
  match s with
  | EmptyString => EmptyString
  | String c s' => if isspace c then lstrip s' else s
  end.

Fixpoint rstrip (s : string) : string :=
  match s with
  | EmptyString => EmptyString
  | String c s' =>
      match rstrip s' with
      | EmptyString => if isspace c then EmptyString else String c EmptyString
      | r => String c r
      end
  end.

(** [s.strip()] *)
Definition strip (s : string) : string := rstrip (lstrip s).

(** [s[:-1]] *)
Fixpoint drop_last (s : string) : string :=
  match s with
  | EmptyString => EmptyString
  | String c EmptyString => EmptyString
  | String c s' => String c (drop_last s')
  end.

(** ["".join(l)] *)
Definition join (l : list string) : string := foldr String.append "" l.

End pystr.

(** ** The part of spaCy's [Doc] that the pipeline reads *)

Module spacy.

(** A token: its text, whether a space follows it ([whitespace_] is then
    one space, else empty) and its sentence-start flag (the values [None]
    and [False] of [is_sent_start] are both [false]). *)
Record Token := mkToken {
  text : string;
  spacy_ : bool;
  is_sent_start : bool
}.

(** An entity span [doc[ent_start:ent_end]] with its label. *)
Record Span := mkSpan {
  ent_start : nat;
  ent_end : nat;
  label_ : string
}.

(** One entry of [doc._.sections]; [sec_end] is [None] while the section
    is open. *)
Record Section_ := mkSection {
  title : string;
  sec_start : Z;
  sec_end : option Z
}.

(** [sections_ext] is [None] as long as the extension attribute
    [sections] has not been set on the document. *)
Record Doc := mkDoc {
  tokens : list Token;
  ents : list Span;
  sections_ext : option (list Section_)
}.

Definition whitespace_ (t : Token) : string := if spacy_ t then " " else "".

Definition text_with_ws (t : Token) : string := text t +:+ whitespace_ t.

(** [len(doc)] *)
Definition len (doc : Doc) : Z := Z.of_nat (length (tokens doc)).

(** The tokens of [doc[a:b]] for indices that are not negative. *)
Definition slice (doc : Doc) (a b : Z) : list Token :=
  take (Z.to_nat b - Z.to_nat a) (drop (Z.to_nat a) (tokens doc)).

(** [Span.text]: the tokens with their trailing whitespace, without the
    whitespace of the last one. *)
Definition span_text (toks : list Token) : string :=
  let t := pystr.join (text_with_ws <$> toks) in
  match last toks with
  | Some tk => if spacy_ tk then pystr.drop_last t else t
  | None => t
  end.

Definition flag_at (doc : Doc) (i : nat) : bool :=
  match tokens doc !! i with
  | Some t => is_sent_start t
  | None => false
  end.

(** [Span.sent]: from the token walk left to the nearest sentence start
    (or the first token), and right to the next sentence start (or the
    end of the document). *)
Fixpoint sent_begin (doc : Doc) (i : nat) : nat :=
  match i with
  | O => O
  | S j => if flag_at doc i then i else sent_begin doc j
  end.

(** Number of tokens before the first sentence start of [toks]. *)
Fixpoint to_next_start (toks : list Token) : nat :=
  match toks with
  | [] => O
  | t :: rest => if is_sent_start t then O else S (to_next_start rest)
  end.

Definition sent_stop (doc : Doc) (i : nat) : nat :=
  (S i + to_next_start (drop (S i) (tokens doc)))%nat.

(** [doc[i].sent.text] *)
Definition sent_text (doc : Doc) (i : nat) : string :=
  span_text (slice doc (Z.of_nat (sent_begin doc i)) (Z.of_nat (sent_stop doc i))).

(** [ent.text] *)
Definition ent_text (doc : Doc) (e : Span) : string :=
  span_text (slice doc (Z.of_nat (ent_start e)) (Z.of_nat (ent_end e))).

End spacy.

(** ** Exceptions, records and data frames *)

Inductive exn :=
| ValueError (msg : string)
| NotImplementedError (msg : string)
| TypeError (msg : string)
| OSError (msg : string).

Inductive result (A : Type) :=
| Ok (a : A)
| Raise (e : exn).
Arguments Ok {A} a.
Arguments Raise {A} e.

Definition raises {A} (r : result A) : Prop :=
  match r with Ok _ => False | Raise _ => True end.

(** A cell of an output record: the patient identifier is a string, a
    phenotype score is a number. *)
Inductive value :=
| VStr (s : string)
| VFloat (q : Qc).

(** [pd.DataFrame(data)] for a list of dicts: one row per dict, one column
    per key that occurs in some dict. *)
Record DataFrame := mkDataFrame {
  df_rows : list (gmap string value);
  df_columns : gset string
}.

Definition pd_DataFrame (data : list (gmap string value)) : DataFrame :=
  {| df_rows := data;
     df_columns := foldl (fun cols row => cols ∪ dom row) ∅ data |}.

(** [df.empty]: some axis has length 0. *)
Definition df_empty (df : DataFrame) : bool :=
  bool_decide (df_rows df = []) || bool_decide (df_columns df = ∅).

(** ** phenotyping_module.py *)

Module phenotyping_module.
Import spacy.

(** A row of the notes table. *)
Record NoteRow := mkNoteRow {
  patient_id : string;
  note_text : string
}.

(** *** ValenceDetector *)

Definition detect (lexicon : gmap string Z) (doc : Doc) : gmap string Z :=
  foldl (fun results ent =>
           let key := pystr.lower (ent_text doc ent) in
           <[key := default 0 (lexicon !! key)]> results)
        ∅ (ents doc).

(** *** PhenotypingEngine *)

(** The inner loop of [tag] for one group: every keyword that is a key of
    [detected_tokens] appends its value to [grouped[group]]. *)
Definition tag_keywords (detected_tokens : gmap string Z) (group : string)
    (keywords : list string) (grouped : gmap string (list Z))
    : gmap string (list Z) :=
  foldl (fun (grouped : gmap string (list Z)) kw =>
           match detected_tokens !! kw with
           | Some v =>
               <[group := (default [] (grouped !! group) ++ [v])%list]> grouped
           | None => grouped
           end)
        grouped keywords.

(** The first loop of [tag]. *)
Definition tag_grouped (rules : gmap string (list string))
    (detected_tokens : gmap string Z) : gmap string (list Z) :=
  map_fold (tag_keywords detected_tokens) ∅ rules.

(** [np.mean(vals)]: the sum of the values over their number. *)
Definition np_sum (vals : list Z) : Z := foldr Z.add 0 vals.

Definition np_mean (vals : list Z) : Qc :=
  (Qc_of_Z (np_sum vals) / Qc_of_Z (Z.of_nat (length vals)))%Qc.

(** The value the second loop of [tag] stores for a group:
    [(np.mean(vals) + 1)/2] if [vals] is not empty, else [0.0]. *)
Definition score (vals : list Z) : Qc :=
  match vals with
  | [] => 0%Qc
  | _ => ((np_mean vals + 1) / 2)%Qc
  end.

(** [tag]: the second loop runs over the items of [grouped]. *)
Definition tag (rules : gmap string (list string))
    (detected_tokens : gmap string Z) : gmap string Qc :=
  map_fold (fun group vals output => <[group := score vals]> output)
           ∅ (tag_grouped rules detected_tokens).

(** *** DbWriter (the one of this file) and the orchestrator *)

Section Pipeline.
(** The file system, [DataFrame.to_csv] on it and the loaded spaCy
    model. *)
Context {FS : Type}.
Variable to_csv : string -> bool -> DataFrame -> FS -> FS * result unit.
Variable nlp : string -> Doc.

Definition DbWriter_write (output_path : string)
    (phenotypes : list (gmap string value)) (fs : FS) : FS * result unit :=
  let df := pd_DataFrame phenotypes in
  to_csv output_path false df fs.

Definition process_note (note_text : string) : Doc := nlp note_text.

Record Config := mkConfig {
  valence_lexicon : gmap string Z;
  phenotyping_rules : gmap string (list string);
  output : string
}.

(** [{'patient_id': note['patient_id'], **pheno_scores}]: the scores
    come last and win on a common key. *)
Definition summary (note : NoteRow) (pheno_scores : gmap string Qc)
    : gmap string value :=
  (VFloat <$> pheno_scores) ∪ {[ "patient_id" := VStr (patient_id note) ]}.

(** The loop of [run]. *)
Definition run_notes (config : Config) (notes : list NoteRow)
    : list (gmap string value) :=
  foldl (fun phenotype_summaries note =>
           let doc := process_note (note_text note) in
           let detections := detect (valence_lexicon config) doc in
           let pheno_scores := tag (phenotyping_rules config) detections in
           (phenotype_summaries ++ [summary note pheno_scores])%list)
        [] notes.

(** [run], from the notes that [read_notes] returned. *)
Definition run (config : Config) (notes : list NoteRow) (fs : FS)
    : FS * result unit :=
  DbWriter_write (output config) (run_notes config notes) fs.

End Pipeline.

End phenotyping_module.

(** ** nlp_pipeline.py *)

Module nlp_pipeline.
Import spacy.

Definition newline : string := String (ascii_of_nat 10) "".

(** The alternatives of the header pattern. *)
Definition headers : list string :=
  [ "history of present illness"; "physical exam"; "assessment and plan";
    "medications"; "impression"; "labs"; "diagnosis" ].

(** The letter case that [re.I] ignores. A letter of the pattern matches
    its two ASCII cases and, for [s] and [i], the letters U+017F (long s)
    and U+0131 (dotless i), which are the bytes C5 BF and C4 B1 of the
    UTF-8 text. [fold_case] maps every character to the lower-case letter
    of the pattern that it matches. (U+0130 and U+212A match [i] and [k]
    too, but they do not occur in a text that went through [lower()].) *)
Fixpoint fold_case (s : string) : string :=
  match s with
  | EmptyString => EmptyString
  | String c1 tl =>
      match tl with
      | EmptyString => String (pystr.lower_ascii c1) EmptyString
      | String c2 rest =>
          if ((nat_of_ascii c1 =? 197) && (nat_of_ascii c2 =? 191))%nat
          then String "s" (fold_case rest)
          else if ((nat_of_ascii c1 =? 196) && (nat_of_ascii c2 =? 177))%nat
          then String "i" (fold_case rest)
          else String (pystr.lower_ascii c1) (fold_case tl)
      end
  end.

(** [pattern.match(s)] for [^(h1|...|h7):?$] compiled with [re.I]: the
    whole of [s], letter case apart, is a header with an optional colon;
    [$] also accepts one line feed that ends the string. *)
Definition pattern_match (s : string) : bool :=
  let s := fold_case s in
  existsb (fun h => (s =? h) || (s =? h +:+ ":")
                    || (s =? h +:+ newline) || (s =? h +:+ ":" +:+ newline))
          headers.

(** [sections[-1]['end'] = e] *)
Definition set_last_end (sections : list Section_) (e : Z) : list Section_ :=
  alter (fun sec => {| title := title sec; sec_start := sec_start sec;
                       sec_end := Some e |})
        (length sections - 1)%nat sections.

(** The body of the loop of [section_segmenter] at token [i]. *)
Definition segment_step (doc : Doc) (sections : list Section_) (i : nat)
    (token : Token) : list Section_ :=
  if is_sent_start token then
    let sent_text := pystr.lower (pystr.strip (sent_text doc i)) in
    if pattern_match sent_text then
      ((match sections with
        | [] => sections
        | _ => set_last_end sections (Z.of_nat i - 1)
        end)
       ++ [ {| title := sent_text; sec_start := Z.of_nat i; sec_end := None |} ])%list
    else sections
  else sections.

(** [for i, token in enumerate(doc)], from index [i] on. *)
Fixpoint segment_loop (doc : Doc) (i : nat) (toks : list Token)
    (sections : list Section_) : list Section_ :=
  match toks with
  | [] => sections
  | token :: rest => segment_loop doc (S i) rest (segment_step doc sections i token)
  end.

Definition segment (doc : Doc) : list Section_ :=
  let sections := segment_loop doc 0 (tokens doc) [] in
  match sections with
  | [] => sections
  | _ => set_last_end sections (len doc - 1)
  end.

Definition section_segmenter (doc : Doc) : Doc :=
  {| tokens := tokens doc; ents := ents doc;
     sections_ext := Some (segment doc) |}.

Section Processor.
(** The components of the loaded spaCy model. *)
Variable model : string -> Doc.

(** [self.nlp(text)]: the model, then the segmenter added last. *)
Definition nlp (text : string) : Doc := section_segmenter (model text).

Definition process_text (text : string) : Doc :=
  if (text =? "") || (pystr.strip text =? "") then nlp "" else nlp text.
End Processor.

Definition extract_entities (doc : Doc) (labels : option (list string))
    : list Span :=
  List.filter (fun ent => match labels with
                          | None => true
                          | Some ls => bool_decide (label_ ent ∈ ls)
                          end) (ents doc).

(** The loop of [extract_section_text]; slicing up to an open end is a
    [TypeError]. *)
Fixpoint find_section (doc : Doc) (sections : list Section_)
    (section_title : string) : result (option string) :=
  match sections with
  | [] => Ok None
  | sec :: rest =>
      if pystr.lower (title sec) =? pystr.lower section_title then
        match sec_end sec with
        | Some e => Ok (Some (span_text (slice doc (sec_start sec) (e + 1))))
        | None => Raise (TypeError "unsupported operand type(s) for +")
        end
      else find_section doc rest section_title
  end.

Definition extract_section_text (doc : Doc) (section_title : string)
    : result (option string) :=
  match sections_ext doc with
  | None => Ok None
  | Some sections => find_section doc sections section_title
  end.

(** *** The pipeline object

    spaCy's [Language]: the tokenizer that makes the document, and the
    named components that are applied to it in order. *)
Record Language := mkLanguage {
  make_doc : string -> Doc;
  pipeline : list (string * (Doc -> Doc))
}.

(** [nlp.pipe_names] *)
Definition pipe_names (l : Language) : list string := fst <$> pipeline l.

(** [nlp(text)] *)
Definition call (l : Language) (text : string) : Doc :=
  foldl (fun doc pipe => pipe.2 doc) (make_doc l text) (pipeline l).

(** [nlp.add_pipe(component, name=name, last=True)] *)
Definition add_pipe (l : Language) (component : Doc -> Doc) (name : string)
    : Language :=
  {| make_doc := make_doc l;
     pipeline := (pipeline l ++ [ (name, component) ])%list |}.

Definition _add_section_segmenter (l : Language) : Language :=
  if bool_decide ("section_segmenter" ∈ pipe_names l) then l
  else add_pipe l section_segmenter "section_segmenter".

End nlp_pipeline.

(** ** db_writer.py *)

Module db_writer.

Record DbWriter := mkDbWriter {
  output_path : string;
  file_format : string;
  index : bool;
  overwrite : bool
}.

(** [__init__] stores the format in lower case; the creation of the
    output directory by [_validate_output_path] is not modelled. *)
Definition init (output_path file_format : string) (index overwrite : bool)
    : DbWriter :=
  {| output_path := output_path; file_format := pystr.lower file_format;
     index := index; overwrite := overwrite |}.

Section Write.
Context {FS : Type}.
Variable to_csv : string -> bool -> DataFrame -> FS -> FS * result unit.

(** [write]: the [except] clause logs and raises the exception again, so
    the outcome is that of the [try] body. *)
Definition write (self : DbWriter) (data : list (gmap string value))
    (fs : FS) : FS * result unit :=
  match data with
  | [] => (fs, Raise (ValueError "No data provided for writing."))
  | _ =>
      let df := pd_DataFrame data in
      if df_empty df then
        (fs, Raise (ValueError "DataFrame is empty after conversion from data."))
      else if file_format self =? "csv" then
        to_csv (output_path self) (index self) df fs
      else
        (fs, Raise (NotImplementedError
                      ("File format '" +:+ file_format self
                       +:+ "' is not supported.")))
  end.
End Write.

(** *** Construction

    The outcome of [__init__]: the writer, the [FileExistsError] of
    [_validate_output_path], or the exception of [os.makedirs]. *)
Inductive init_result :=
| Created (self : DbWriter)
| FileExistsError (msg : string)
| MakedirsFailed (e : exn).

Section Init.
Context {FS : Type}.
(** [os.path.dirname], [os.path.exists] and
    [os.makedirs(_, exist_ok=True)]. *)
Variable dirname : string -> string.
Variable path_exists : string -> FS -> bool.
Variable makedirs : string -> FS -> FS * result unit.

Definition _validate_output_path (self : DbWriter) (fs : FS)
    : FS * init_result :=
  let directory := dirname (output_path self) in
  let '(fs1, made) :=
    if negb (directory =? "") && negb (path_exists directory fs)
    then makedirs directory fs
    else (fs, Ok tt) in
  match made with
  | Raise e => (fs1, MakedirsFailed e)
  | Ok _ =>
      if negb (overwrite self) && path_exists (output_path self) fs1 then
        (fs1, FileExistsError
                ("Output file " +:+ output_path self
                 +:+ " exists and overwrite is disabled."))
      else (fs1, Created self)
  end.

(** [DbWriter(output_path, file_format, index, overwrite)] *)
Definition __init__ (output_path file_format : string)
    (index overwrite : bool) (fs : FS) : FS * init_result :=
  _validate_output_path (init output_path file_format index overwrite) fs.
End Init.

End db_writer.

(** ** db_reader.py *)

Module db_reader.

Record DbReader {Options : Type} := mkDbReader {
  notes_path : string;
  meds_path : string;
  diag_path : string;
  labs_path : string;
  csv_options : Options
}.
Arguments DbReader Options : clear implicits.

(** What a method of the reader raises: [FileNotFoundError], the
    [ValueError] of [read_notes] whose message shows the set [missing], or
    another exception. *)
Inductive error :=
| FileNotFoundError (msg : string)
| MissingColumns (missing : gset string)
| Other (e : exn).

Inductive outcome (A : Type) :=
| Return (a : A)
| Fail (e : error).
Arguments Return {A} a.
Arguments Fail {A} e.

Section Reader.
(** The keyword arguments of [pd.read_csv], with [{}] for none, and the
    file system as the reader sees it: [os.path.exists], [pd.read_csv] and
    [DataFrame.to_dict(orient='records')]. *)
Context {Options : Type}.
Variable no_options : Options.
Variable path_exists : string -> bool.
Variable read_csv : string -> Options -> result DataFrame.
Variable to_dict : DataFrame -> list (gmap string value).

(** The loop of [__init__] over the four paths. *)
Fixpoint check_paths (paths : list string) : option error :=
  match paths with
  | [] => None
  | path :: rest =>
      if negb (path_exists path) then
        Some (FileNotFoundError ("File not found: " +:+ path))
      else check_paths rest
  end.

Definition __init__ (notes_path meds_path diag_path labs_path : string)
    (csv_options : option Options) : outcome (DbReader Options) :=
  match check_paths [notes_path; meds_path; diag_path; labs_path] with
  | Some e => Fail e
  | None =>
      Return {| notes_path := notes_path; meds_path := meds_path;
                diag_path := diag_path; labs_path := labs_path;
                csv_options := default no_options csv_options |}
  end.

Definition required : gset string := {[ "patient_id"; "note_text" ]}.

Definition read_notes (self : DbReader Options)
    : outcome (list (gmap string value)) :=
  match read_csv (notes_path self) (csv_options self) with
  | Raise e => Fail (Other e)
  | Ok df =>
      if bool_decide (required ⊆ df_columns df) then Return (to_dict df)
      else Fail (MissingColumns (required ∖ df_columns df))
  end.

(** One table of [read_structured]: read it and require the column
    [patient_id]. *)
Definition read_table (self : DbReader Options) (path table : string)
    : outcome DataFrame :=
  match read_csv path (csv_options self) with
  | Raise e => Fail (Other e)
  | Ok df =>
      if bool_decide ("patient_id" ∈ df_columns df) then Return df
      else Fail (Other (ValueError
                   ("Missing required column 'patient_id' in " +:+ table
                    +:+ " file.")))
  end.

Definition read_structured (self : DbReader Options)
    : outcome (gmap string DataFrame) :=
  match read_table self (meds_path self) "medications" with
  | Fail e => Fail e
  | Return meds =>
      match read_table self (diag_path self) "diagnoses" with
      | Fail e => Fail e
      | Return diag =>
          match read_table self (labs_path self) "labs" with
          | Fail e => Fail e
          | Return labs =>
              Return (<["labs" := labs]> (<["diag" := diag]>
                        (<["meds" := meds]> ∅)))
          end
      end
  end.

End Reader.

End db_reader.

(** ** Specification-side notions *)

(** The polarity values a group collects: those of its trigger terms that
    are keys of the detection map, in the order of the trigger list. *)
Definition collected (detected_tokens : gmap string Z) (keywords : list string)
    : list Z :=
  omap (fun kw => detected_tokens !! kw) keywords.

(** The record that [run] appends for one note. *)
Definition note_record (nlp : string -> spacy.Doc)
    (config : phenotyping_module.Config) (note : phenotyping_module.NoteRow)
    : gmap string value :=
  phenotyping_module.summary note
    (phenotyping_module.tag (phenotyping_module.phenotyping_rules config)
       (phenotyping_module.detect (phenotyping_module.valence_lexicon config)
          (phenotyping_module.process_note nlp
             (phenotyping_module.note_text note)))).

(** The normalized text of the sentence of token [i], as the segmenter
    compares it with the header pattern. *)
Definition norm_sent (doc : spacy.Doc) (i : nat) : string :=
  pystr.lower (pystr.strip (spacy.sent_text doc i)).

(** Token [i] starts a sentence whose normalized text matches the header
    pattern. *)
Definition is_header_at (doc : spacy.Doc) (i : nat) (token : spacy.Token)
    : bool :=
  spacy.is_sent_start token && nlp_pipeline.pattern_match (norm_sent doc i).

(** Title and start of the header lines among [toks], the tokens of [doc]
    from index [i] on. *)
Fixpoint header_lines (doc : spacy.Doc) (i : nat) (toks : list spacy.Token)
    : list (string * Z) :=
  match toks with
  | [] => []
  | token :: rest =>
      (if is_header_at doc i token then [ (norm_sent doc i, Z.of_nat i) ]
       else []) ++ header_lines doc (S i) rest
  end.

Definition sec_key (sec : spacy.Section_) : string * Z :=
  (spacy.title sec, spacy.sec_start sec).

(** Every section of [secs] is closed, starts at a token index and ends
    right before the next section starts; the last one ends right before
    [stop]. *)
Fixpoint chained (secs : list spacy.Section_) (stop : Z) : Prop :=
  match secs with
  | [] => True
  | sec :: rest =>
      let next := match rest with
                  | [] => stop
                  | sec' :: _ => spacy.sec_start sec'
                  end in
      spacy.sec_end sec = Some (next - 1)
      ∧ 0 <= spacy.sec_start sec < next
      ∧ chained rest stop
  end.

(** The sections while the loop runs, before token [n]: none, or closed
    sections followed by one open section. *)
Definition open_at (n : Z) (secs : list spacy.Section_) : Prop :=
  secs = []
  ∨ ∃ l sec, secs = (l ++ [sec])%list ∧ spacy.sec_end sec = None
             ∧ 0 <= spacy.sec_start sec < n ∧ chained l (spacy.sec_start sec).

(** The arithmetic mean of a list of polarity values: their total over
    their number. *)
Definition total (vals : list Z) : Z := foldl Z.add 0 vals.

Definition arithmetic_mean (vals : list Z) : Qc :=
  (Qc_of_Z (total vals) / Qc_of_Z (Z.of_nat (length vals)))%Qc.

(** [s.isascii()]: every character is below 128. *)
Fixpoint is_ascii (s : string) : bool :=
  match s with
  | EmptyString => true
  | String c s' => (nat_of_ascii c <? 128)%nat && is_ascii s'
  end.

(** The last character of a string. *)
Fixpoint last_char (s : string) : option ascii :=
  match s with
  | EmptyString => None
  | String c EmptyString => Some c
  | String _ s' => last_char s'
  end.

(** The lower-cased texts of the entity spans of a document. *)
Definition entity_terms (doc : spacy.Doc) : list string :=
  (fun ent => pystr.lower (spacy.ent_text doc ent)) <$> spacy.ents doc.

(** ** Concrete configurations

    The lexicon and rule set of the usage example of
    [phenotyping_module.py], a few small documents, an annotator that finds
    nothing and a file system on which [to_csv] always succeeds. *)

Module examples.
Import spacy.

Definition lexicon : gmap string Z :=
  {[ "fever" := 1; "no fever" := -1; "cough" := 1; "no cough" := -1 ]}.

Definition rules : gmap string (list string) :=
  {[ "INFECTION" := ["fever"; "cough"] ]}.

Definition config : phenotyping_module.Config :=
  {| phenotyping_module.valence_lexicon := lexicon;
     phenotyping_module.phenotyping_rules := rules;
     phenotyping_module.output := "phenotype_summary.csv" |}.

(** One entity, [Headache], which the lexicon does not list. *)
Definition doc_headache : Doc :=
  {| tokens := [ mkToken "Headache" false true ];
     ents := [ mkSpan 0 1 "ENTITY" ];
     sections_ext := None |}.

(** A header line with a colon, then one sentence. *)
Definition doc_medications : Doc :=
  {| tokens := [ mkToken "Medications" false true; mkToken ":" false false;
                 mkToken nlp_pipeline.newline false false;
                 mkToken "Aspirin" true true; mkToken "daily" false false ];
     ents := [];
     sections_ext := None |}.


(** An annotator that returns the empty document. *)
Definition empty_model (text : string) : Doc :=
  {| tokens := []; ents := []; sections_ext := None |}.

(** A file system that maps a path to the frame written there; writing
    never fails. *)
Definition to_csv_ok (path : string) (index : bool) (df : DataFrame)
    (fs : gmap string DataFrame) : gmap string DataFrame * result unit :=
  (<[path := df]> fs, Ok tt).

Definition json_writer : db_writer.DbWriter :=
  db_writer.init "out/phenotypes.json" "JSON" false true.

Definition one_record : list (gmap string value) :=
  [ {[ "patient_id" := VStr "123" ]} ].

(** One entity, [Fever]; and the same term as two entities. *)
Definition doc_fever : Doc :=
  {| tokens := [ mkToken "Fever" false true ];
     ents := [ mkSpan 0 1 "ENTITY" ];
     sections_ext := None |}.

Definition doc_fever_twice : Doc :=
  {| tokens := [ mkToken "fever" false true; mkToken "," true false;
                 mkToken "Fever" false false ];
     ents := [ mkSpan 0 1 "ENTITY"; mkSpan 2 3 "ENTITY" ];
     sections_ext := None |}.

(** A rule set whose only trigger is a term that the lexicon does not
    list, and one with a group that is named like the identifier column. *)
Definition pain_rules : gmap string (list string) :=
  {[ "PAIN" := ["headache"] ]}.

Definition clash_config : phenotyping_module.Config :=
  {| phenotyping_module.valence_lexicon := lexicon;
     phenotyping_module.phenotyping_rules := {[ "patient_id" := ["fever"] ]};
     phenotyping_module.output := "phenotype_summary.csv" |}.

(** An annotator that returns [doc_fever] for every text. *)
Definition fever_model (text : string) : Doc := doc_fever.

Definition csv_writer : db_writer.DbWriter :=
  db_writer.init "out/phenotypes.csv" "CSV" false true.

(** A table with the two columns of the notes file, a [read_csv] that
    returns it for every path, and a reader of four files. *)
Definition notes_frame : DataFrame :=
  pd_DataFrame [ {[ "patient_id" := VStr "1"; "note_text" := VStr "fever" ]} ].

Definition read_csv_notes (path : string) (options : unit) : result DataFrame :=
  Ok notes_frame.

Definition reader : db_reader.DbReader unit :=
  {| db_reader.notes_path := "ehr_notes.csv";
     db_reader.meds_path := "ehr_meds.csv";
     db_reader.diag_path := "ehr_diagnosis.csv";
     db_reader.labs_path := "ehr_labs.csv";
     db_reader.csv_options := tt |}.

End examples.

(** * Properties *)


(** ** The phenotype aggregator *)

Section Tag.
Import phenotyping_module.
Variable detected_tokens : gmap string Z.

(** The inner loop only touches the entry of its own group, and appends
    the collected values to it. *)
Lemma tag_keywords_lookup (group : string) (keywords : list string)
    (grouped : gmap string (list Z)) (g : string) :
  tag_keywords detected_tokens group keywords grouped !! g =
    if decide (group = g) then
      match collected detected_tokens keywords with
      | [] => grouped !! g
      | vals => Some (default [] (grouped !! g) ++ vals)%list
      end
    else grouped !! g.
Proof.
  unfold tag_keywords, collected.
  revert grouped. induction keywords as [|kw kws IH]; intros grouped.
  - simpl. by destruct (decide (group = g)).
  - cbn [foldl]. rewrite IH.
    change (omap (fun kw => detected_tokens !! kw) (kw :: kws))
      with (match detected_tokens !! kw with
            | Some v => v :: omap (fun kw => detected_tokens !! kw) kws
            | None => omap (fun kw => detected_tokens !! kw) kws
            end).
    destruct (decide (group = g)) as [->|Hne].
    + destruct (detected_tokens !! kw) as [v|] eqn:Hkw; [|done].
      rewrite lookup_insert_eq. simpl.
      destruct (omap _ kws) as [|w ws]; [done|].
      by rewrite <- app_assoc.
    + destruct (detected_tokens !! kw) as [v|]; [|done].
      by rewrite lookup_insert_ne.
Qed.

(** After the first loop a group has an entry exactly when it collected
    at least one value. *)
Lemma tag_grouped_lookup (rules : gmap string (list string)) (g : string) :
  tag_grouped rules detected_tokens !! g =
    rules !! g ≫= fun keywords =>
      match collected detected_tokens keywords with
      | [] => None
      | vals => Some vals
      end.
Proof.
  unfold tag_grouped.
  apply (map_fold_weak_ind (fun (r : gmap string (list Z)) m =>
    r !! g = m !! g ≫= fun keywords =>
      match collected detected_tokens keywords with
      | [] => None
      | vals => Some vals
      end)).
  - by rewrite !lookup_empty.
  - intros group keywords m r Hfresh IH.
    rewrite tag_keywords_lookup.
    destruct (decide (group = g)) as [->|Hne].
    + rewrite lookup_insert_eq. simpl. rewrite IH, Hfresh. simpl.
      by destruct (collected detected_tokens keywords).
    + by rewrite lookup_insert_ne.
Qed.

(** The second loop maps [score] over the grouped values. *)
Lemma tag_fmap (rules : gmap string (list string)) :
  tag rules detected_tokens = score <$> tag_grouped rules detected_tokens.
Proof.
  unfold tag.
  apply (map_fold_weak_ind (fun (out : gmap string Qc) m => out = score <$> m)).
  - by rewrite fmap_empty.
  - intros group vals m out _ ->. by rewrite fmap_insert.
Qed.

Lemma tag_lookup (rules : gmap string (list string)) (g : string) :
  tag rules detected_tokens !! g =
    rules !! g ≫= fun keywords =>
      match collected detected_tokens keywords with
      | [] => None
      | vals => Some (score vals)
      end.
Proof.
  rewrite tag_fmap, lookup_fmap, tag_grouped_lookup.
  destruct (rules !! g) as [keywords|]; simpl; [|done].
  by destruct (collected detected_tokens keywords).
Qed.

End Tag.

(** ** Scores *)

Section Score.
Import phenotyping_module.

Lemma np_sum_bounds (vals : list Z) :
  Forall (fun v => -1 <= v <= 1) vals ->
  - Z.of_nat (length vals) <= np_sum vals <= Z.of_nat (length vals).
Proof.
  unfold np_sum. induction 1 as [|v vals Hv _ IH]; simpl; lia.
Qed.

(** The affine map [(x + 1) / 2] sends a quotient in [-1, 1] into [0, 1]. *)
Lemma affine_range (s n : Z) :
  0 < n -> - n <= s <= n ->
  (0 ≤ (Qc_of_Z s / Qc_of_Z n + 1) / 2 ≤ 1)%Qc.
Proof.
  intros Hn [Hlo Hhi].
  unfold Qcle, Qcdiv, Qcmult, Qcinv, Qcplus, Qc_of_Z, Q2Qc. simpl this.
  rewrite !Qred_correct.
  assert (Hq : (-1 <= inject_Z s / inject_Z n <= 1)%Q).
  { assert (Hpos : (0 < inject_Z n)%Q).
    { change 0%Q with (inject_Z 0). rewrite <- Zlt_Qlt. lia. }
    split.
    - apply Qle_shift_div_l; [done|].
      change (-1)%Q with (inject_Z (-1)).
      rewrite <- inject_Z_mult, <- Zle_Qle. lia.
    - apply Qle_shift_div_r; [done|].
      change 1%Q with (inject_Z 1).
      rewrite <- inject_Z_mult, <- Zle_Qle. lia. }
  unfold Qdiv in Hq. revert Hq.
  generalize (inject_Z s * / inject_Z n)%Q. intros q Hq.
  change (/ (1 + 1))%Q with (1 # 2)%Q. lra.
Qed.

Lemma total_from (a : Z) (vals : list Z) :
  foldl Z.add a vals = a + foldr Z.add 0 vals.
Proof.
  revert a. induction vals as [|v vals IH]; intros a; simpl; [lia|].
  rewrite IH. lia.
Qed.

(** [np.mean] is the arithmetic mean. *)
Lemma np_mean_arithmetic (vals : list Z) : np_mean vals = arithmetic_mean vals.
Proof.
  unfold np_mean, arithmetic_mean, np_sum, total. by rewrite total_from.
Qed.

Lemma score_nonempty (vals : list Z) :
  vals ≠ [] -> score vals = ((np_mean vals + 1) / 2)%Qc.
Proof. by destruct vals. Qed.

Lemma collected_Forall (P : Z -> Prop) (detected_tokens : gmap string Z)
    (keywords : list string) :
  map_Forall (fun _ v => P v) detected_tokens ->
  Forall P (collected detected_tokens keywords).
Proof.
  intros Hall. apply List.Forall_forall. intros v Hv.
  apply list_elem_of_In in Hv. unfold collected in Hv.
  apply list_elem_of_omap in Hv as (kw & _ & Hkw).
  by apply (Hall kw).
Qed.

End Score.

(** ** The orchestrator *)

Section Run.
Import phenotyping_module.
Variable nlp : string -> spacy.Doc.
Variable config : Config.

Lemma run_notes_fold (acc : list (gmap string value)) (notes : list NoteRow) :
  foldl (fun phenotype_summaries note =>
           let doc := process_note nlp (note_text note) in
           let detections := detect (valence_lexicon config) doc in
           let pheno_scores := tag (phenotyping_rules config) detections in
           (phenotype_summaries ++ [summary note pheno_scores])%list)
        acc notes
  = (acc ++ (note_record nlp config <$> notes))%list.
Proof.
  revert acc. induction notes as [|note notes IH]; intros acc; simpl.
  - by rewrite app_nil_r.
  - rewrite IH. by rewrite <- app_assoc.
Qed.

(** One record per note, in the order of the notes. *)
Lemma run_notes_map (notes : list NoteRow) :
  run_notes nlp config notes = note_record nlp config <$> notes.
Proof. unfold run_notes. by rewrite run_notes_fold. Qed.

Lemma detect_no_entities (lexicon : gmap string Z) (doc : spacy.Doc) :
  spacy.ents doc = [] -> detect lexicon doc = ∅.
Proof. unfold detect. by intros ->. Qed.

Lemma tag_no_detections (rules : gmap string (list string)) :
  tag rules ∅ = ∅.
Proof.
  apply map_eq. intros g. rewrite tag_lookup, lookup_empty.
  destruct (rules !! g) as [keywords|]; simpl; [|done].
  replace (collected ∅ keywords) with (@nil Z); [done|].
  unfold collected. induction keywords as [|kw kws IH]; [done|].
  simpl. by rewrite lookup_empty.
Qed.

End Run.

(** ** The section segmenter *)

Section Segmenter.
Import spacy nlp_pipeline.

Lemma set_last_end_snoc (l : list Section_) (sec : Section_) (e : Z) :
  set_last_end (l ++ [sec]) e =
    (l ++ [ {| title := title sec; sec_start := sec_start sec;
               sec_end := Some e |} ])%list.
Proof.
  unfold set_last_end. rewrite length_app. simpl.
  replace (length l + 1 - 1)%nat with (length l + 0)%nat by lia.
  by rewrite alter_app_r.
Qed.

Lemma set_last_end_keys (secs : list Section_) (e : Z) :
  sec_key <$> set_last_end secs e = sec_key <$> secs.
Proof.
  destruct secs as [|sec l _] using rev_ind; [done|].
  by rewrite set_last_end_snoc, !fmap_app.
Qed.

(** Titles and starts of the sections are those of the header lines. *)
Lemma segment_loop_keys (doc : Doc) (toks : list Token) (i : nat)
    (secs : list Section_) :
  sec_key <$> segment_loop doc i toks secs =
    ((sec_key <$> secs) ++ header_lines doc i toks)%list.
Proof.
  revert i secs. induction toks as [|token rest IH]; intros i secs; simpl.
  - by rewrite app_nil_r.
  - rewrite IH. unfold segment_step, is_header_at, norm_sent.
    destruct (is_sent_start token); simpl; [|done].
    destruct (pattern_match _); simpl; [|done].
    rewrite fmap_app, <- app_assoc. simpl.
    destruct secs as [|s0 secs0]; [done|].
    by rewrite set_last_end_keys.
Qed.

Lemma segment_keys (doc : Doc) :
  sec_key <$> segment doc = header_lines doc 0 (tokens doc).
Proof.
  unfold segment.
  pose proof (segment_loop_keys doc (tokens doc) 0 []) as Hk. simpl in Hk.
  destruct (segment_loop doc 0 (tokens doc) []) as [|s0 secs0] eqn:Hloop.
  - done.
  - by rewrite set_last_end_keys.
Qed.

Lemma header_lines_elem (doc : Doc) (toks : list Token) (i : nat)
    (t : string) (z : Z) :
  (t, z) ∈ header_lines doc i toks ↔
    ∃ j token, toks !! j = Some token
               ∧ is_header_at doc (i + j) token = true
               ∧ t = norm_sent doc (i + j) ∧ z = Z.of_nat (i + j).
Proof.
  revert i. induction toks as [|token rest IH]; intros i; simpl.
  - rewrite elem_of_nil. split; [done|]. by intros (j & tk & ? & _).
  - rewrite elem_of_app, IH. split.
    + intros [Hhd|(j & tk & Hj & Hh & -> & ->)].
      * destruct (is_header_at doc i token) eqn:Hh;
          [|by apply elem_of_nil in Hhd].
        apply list_elem_of_singleton in Hhd. injection Hhd as -> ->.
        exists 0%nat, token. by rewrite Nat.add_0_r.
      * exists (S j), tk. by rewrite <- Nat.add_succ_comm.
    + intros ([|j] & tk & Hj & Hh & -> & ->); simpl in Hj.
      * injection Hj as ->. left. rewrite Nat.add_0_r in *.
        rewrite Hh. by apply list_elem_of_singleton.
      * right. exists j, tk. by rewrite Nat.add_succ_comm.
Qed.


(** *** The loop invariant *)

Lemma chained_snoc (l : list Section_) (sec : Section_) (stop : Z) :
  chained l (sec_start sec) -> sec_end sec = Some (stop - 1) ->
  0 <= sec_start sec < stop -> chained (l ++ [sec]) stop.
Proof.
  intros Hl Hend Hstart. induction l as [|a l IH]; simpl.
  - done.
  - destruct Hl as (Ha & Hb & Hl). destruct l as [|b l]; simpl in *.
    + done.
    + split; [done|]. split; [done|]. by apply IH.
Qed.

Lemma open_at_mono (n m : Z) (secs : list Section_) :
  n <= m -> open_at n secs -> open_at m secs.
Proof.
  intros Hle [->|(l & sec & -> & Hend & Hstart & Hl)]; [by left|].
  right. exists l, sec. repeat split; try done; lia.
Qed.

Lemma segment_step_open (doc : Doc) (secs : list Section_) (i : nat)
    (token : Token) :
  open_at (Z.of_nat i) secs ->
  open_at (Z.of_nat (S i)) (segment_step doc secs i token).
Proof.
  intros Hinv. unfold segment_step.
  destruct (is_sent_start token); [|apply (open_at_mono (Z.of_nat i)); [lia|done]].
  destruct (pattern_match _); [|apply (open_at_mono (Z.of_nat i)); [lia|done]].
  right. destruct Hinv as [->|(l & sec & -> & Hend & Hstart & Hl)].
  - exists [], {| title := pystr.lower (pystr.strip (sent_text doc i));
                  sec_start := Z.of_nat i; sec_end := None |}.
    simpl. repeat split; try done; lia.
  - destruct (l ++ [sec])%list as [|s0 l0] eqn:Hsecs; [by destruct l|].
    rewrite <- Hsecs, set_last_end_snoc. eexists _, _. split; [done|].
    simpl. split; [done|]. split; [lia|].
    apply chained_snoc; simpl; [done|done|lia].
Qed.

Lemma segment_loop_open (doc : Doc) (toks : list Token) (i : nat)
    (secs : list Section_) :
  open_at (Z.of_nat i) secs ->
  open_at (Z.of_nat (i + length toks)) (segment_loop doc i toks secs).
Proof.
  revert i secs. induction toks as [|token rest IH]; intros i secs Hinv; simpl.
  - by rewrite Nat.add_0_r.
  - rewrite <- Nat.add_succ_comm. apply IH. by apply segment_step_open.
Qed.

(** The result of the segmenter is a chain that stops at the end of the
    document. *)
Lemma segment_chained (doc : Doc) : chained (segment doc) (len doc).
Proof.
  unfold segment, len.
  destruct (segment_loop_open doc (tokens doc) 0 [])
    as [->|(l & sec & -> & Hend & Hstart & Hl)]; [by left|done|].
  destruct (l ++ [sec])%list as [|s0 l0] eqn:Hsecs; [by destruct l|].
  rewrite <- Hsecs, set_last_end_snoc.
  apply chained_snoc; simpl; [done|done|]. simpl in Hstart. lia.
Qed.

(** *** What a chain gives *)

Lemma chained_bounds (secs : list Section_) (stop : Z) (sec : Section_) :
  chained secs stop -> sec ∈ secs ->
  ∃ e, sec_end sec = Some e ∧ 0 <= sec_start sec <= e ∧ e < stop.
Proof.
  revert sec. induction secs as [|a rest IH]; intros sec Hch Hin.
  - by apply elem_of_nil in Hin.
  - destruct Hch as (Hend & Hstart & Hrest).
    apply elem_of_cons in Hin as [->|Hin]; [|by apply IH].
    eexists. split; [exact Hend|]. split; [lia|].
    destruct rest as [|b rest]; [lia|].
    destruct (IH b Hrest) as (e & _ & ? & ?); [left|lia].
Qed.

Lemma chained_head_le (a : Section_) (rest : list Section_) (stop : Z)
    (sec : Section_) :
  chained (a :: rest) stop -> sec ∈ a :: rest -> sec_start a <= sec_start sec.
Proof.
  revert a. induction rest as [|b rest IH]; intros a Hch Hin.
  - apply list_elem_of_singleton in Hin as ->. lia.
  - apply elem_of_cons in Hin as [->|Hin]; [lia|].
    destruct Hch as (_ & Hstart & Hrest).
    specialize (IH b Hrest Hin). lia.
Qed.

Lemma chained_lookup_lt (secs : list Section_) (stop : Z) (j k : nat)
    (a b : Section_) :
  chained secs stop -> (j < k)%nat ->
  secs !! j = Some a -> secs !! k = Some b ->
  ∃ e, sec_end a = Some e ∧ sec_start a <= e ∧ e < sec_start b.
Proof.
  revert j k. induction secs as [|s rest IH]; intros j k Hch Hjk Hj Hk.
  - done.
  - destruct k as [|k]; [lia|]. simpl in Hk.
    destruct j as [|j]; simpl in Hj.
    + injection Hj as ->. destruct Hch as (Hend & Hstart & Hrest).
      destruct rest as [|c rest]; [done|].
      eexists. split; [exact Hend|]. split; [lia|].
      assert (sec_start c <= sec_start b); [|lia].
      apply (chained_head_le c rest stop); [done|].
      by apply list_elem_of_lookup_2 in Hk.
    + destruct Hch as (_ & _ & Hrest). apply (IH j k); [done|lia|done|done].
Qed.

Lemma chained_last (secs : list Section_) (stop : Z) (sec : Section_) :
  chained secs stop -> last secs = Some sec -> sec_end sec = Some (stop - 1).
Proof.
  induction secs as [|a rest IH]; intros Hch Hlast; [done|].
  destruct Hch as (Hend & _ & Hrest). destruct rest as [|b rest].
  - by injection Hlast as <-.
  - by apply IH.
Qed.

(** *** Titles and lookup *)

Lemma lower_ascii_idem (c : ascii) :
  pystr.lower_ascii (pystr.lower_ascii c) = pystr.lower_ascii c.
Proof. by destruct c as [[] [] [] [] [] [] [] []]. Qed.

Lemma lower_idem (s : string) : pystr.lower (pystr.lower s) = pystr.lower s.
Proof.
  induction s as [|c s IH]; simpl; [done|]. by rewrite lower_ascii_idem, IH.
Qed.

Lemma segment_elem_header (doc : Doc) (sec : Section_) :
  sec ∈ segment doc ->
  ∃ i token, tokens doc !! i = Some token ∧ is_header_at doc i token = true
             ∧ title sec = norm_sent doc i ∧ sec_start sec = Z.of_nat i.
Proof.
  intros Hin.
  assert (sec_key sec ∈ sec_key <$> segment doc) as Hk
    by (apply list_elem_of_fmap; eauto).
  rewrite segment_keys in Hk.
  apply header_lines_elem in Hk as (j & token & Hj & Hh & Ht & Hs).
  exists j, token. by repeat split.
Qed.

Lemma header_elem_segment (doc : Doc) (i : nat) (token : Token) :
  tokens doc !! i = Some token -> is_header_at doc i token = true ->
  ∃ sec, sec ∈ segment doc ∧ title sec = norm_sent doc i
         ∧ sec_start sec = Z.of_nat i.
Proof.
  intros Hi Hh.
  assert ((norm_sent doc i, Z.of_nat i) ∈ sec_key <$> segment doc) as Hk.
  { rewrite segment_keys. apply header_lines_elem. exists i, token. eauto. }
  apply list_elem_of_fmap in Hk as (sec & Hkey & Hin).
  exists sec. injection Hkey as -> ->. eauto.
Qed.

Lemma segment_title_lower (doc : Doc) (sec : Section_) :
  sec ∈ segment doc -> pystr.lower (title sec) = title sec.
Proof.
  intros (i & token & _ & _ & -> & _)%segment_elem_header.
  apply lower_idem.
Qed.

Lemma find_section_none (doc : Doc) (secs : list Section_) (q : string) :
  (∀ sec, sec ∈ secs -> pystr.lower (title sec) ≠ pystr.lower q) ->
  find_section doc secs q = Ok None.
Proof.
  induction secs as [|a rest IH]; intros Hno; simpl; [done|].
  destruct (String.eqb_spec (pystr.lower (title a)) (pystr.lower q)) as [Heq|_].
  - exfalso. apply (Hno a); [left|done].
  - apply IH. intros sec Hin. apply Hno. by right.
Qed.

(** The lookup returns the text of the first section whose title matches. *)
Lemma find_section_found (doc : Doc) (secs : list Section_) (q : string)
    (sec : Section_) :
  (∀ s, s ∈ secs -> is_Some (sec_end s)) ->
  sec ∈ secs -> pystr.lower (title sec) = pystr.lower q ->
  ∃ sec' e, sec' ∈ secs ∧ pystr.lower (title sec') = pystr.lower q
            ∧ sec_end sec' = Some e
            ∧ find_section doc secs q =
                Ok (Some (span_text (slice doc (sec_start sec') (e + 1)))).
Proof.
  intros Hclosed Hin Hq. induction secs as [|a rest IH]; simpl.
  - by apply elem_of_nil in Hin.
  - destruct (String.eqb_spec (pystr.lower (title a)) (pystr.lower q)) as [Heq|Hne].
    + destruct (Hclosed a) as [e He]; [left|].
      exists a, e. rewrite He. repeat split; [left|done..].
    + apply elem_of_cons in Hin as [->|Hin]; [done|].
      destruct IH as (sec' & e & Hin' & Ht & He & Hfind); [|done|].
      { intros s Hs. apply Hclosed. by right. }
      exists sec', e. repeat split; [by right|done..].
Qed.

Lemma header_colon_match (h : string) :
  h ∈ headers -> pattern_match (h +:+ ":") = true ∧ h +:+ ":" ≠ h
                 ∧ pystr.lower (h +:+ ":") = h +:+ ":".
Proof.
  unfold headers. intros Hh.
  repeat (apply elem_of_cons in Hh as [->|Hh]; [by vm_compute|]).
  by apply elem_of_nil in Hh.
Qed.

End Segmenter.

(** ** The sink *)

Section Sink.
Import db_writer.

Lemma columns_empty (data : list (gmap string value)) (acc : gset string) :
  foldl (fun cols row => cols ∪ dom row) acc data = ∅
  ↔ acc = ∅ ∧ Forall (fun row => row = ∅) data.
Proof.
  revert acc. induction data as [|row rest IH]; intros acc; simpl.
  - split; [by intros ->|by intros [-> _]].
  - rewrite IH, empty_union_L, dom_empty_iff_L, Forall_cons. tauto.
Qed.

(** The frame of a list of records is empty exactly when there is no
    record or no record has a field. *)
Lemma df_empty_spec (data : list (gmap string value)) :
  df_empty (pd_DataFrame data) = true
  ↔ data = [] ∨ Forall (fun row => row = ∅) data.
Proof.
  unfold df_empty, pd_DataFrame. simpl.
  rewrite orb_true_iff, !bool_decide_eq_true, columns_empty. tauto.
Qed.

Context {FS : Type}.
Variable to_csv : string -> bool -> DataFrame -> FS -> FS * result unit.

(** The three outcomes of [write] on a list that is not empty. *)
Lemma write_cons (self : DbWriter) (row : gmap string value)
    (rest : list (gmap string value)) (fs : FS) :
  write to_csv self (row :: rest) fs =
    if df_empty (pd_DataFrame (row :: rest)) then
      (fs, Raise (ValueError "DataFrame is empty after conversion from data."))
    else if file_format self =? "csv" then
      to_csv (output_path self) (index self) (pd_DataFrame (row :: rest)) fs
    else
      (fs, Raise (NotImplementedError
                    ("File format '" +:+ file_format self
                     +:+ "' is not supported."))).
Proof. done. Qed.

End Sink.

(** * The claims *)

Section Claims.
Import spacy phenotyping_module nlp_pipeline db_writer.

(** C1, as stated, fails: the entity [Headache] is not a key of the
    lexicon, and [detect] still returns an entry for it, with value 0. *)
Lemma detect_unknown_term_counterexample :
  examples.lexicon !! "headache" = None
  ∧ detect examples.lexicon examples.doc_headache !! "headache" = Some 0
  ∧ ¬ (∀ (lexicon : gmap string Z) (doc : Doc) (k : string),
         is_Some (detect lexicon doc !! k) -> is_Some (lexicon !! k)).
Proof.
  assert (Hlex : examples.lexicon !! "headache" = None) by by vm_compute.
  assert (Hdet : detect examples.lexicon examples.doc_headache !! "headache"
                 = Some 0) by by vm_compute.
  split; [done|]. split; [done|]. intros Hclaim.
  destruct (Hclaim examples.lexicon examples.doc_headache "headache")
    as [v Hv]; [by rewrite Hdet|].
  by rewrite Hlex in Hv.
Qed.

(** C1, amended: the map returned by [ValenceDetector.detect] has an entry
    exactly for the lower-cased text of every entity span; the value is
    the polarity the lexicon gives the term, and 0 for a term that is not
    a key of the lexicon. *)
Theorem detect_entries (lexicon : gmap string Z) (doc : Doc) (k : string)
    (v : Z) :
  detect lexicon doc !! k = Some v
  ↔ k ∈ entity_terms doc ∧ v = default 0 (lexicon !! k).
Proof.
  unfold detect, entity_terms. generalize (ents doc). intros l.
  induction l as [|ent l IH] using rev_ind.
  - simpl. rewrite lookup_empty, elem_of_nil. naive_solver.
  - rewrite foldl_snoc, fmap_app, elem_of_app. cbn zeta.
    destruct (decide (pystr.lower (ent_text doc ent) = k)) as [<-|Hne].
    + rewrite lookup_insert_eq. simpl. rewrite list_elem_of_singleton.
      naive_solver.
    + rewrite lookup_insert_ne by done. rewrite IH. simpl.
      rewrite list_elem_of_singleton. naive_solver.
Qed.

(** C2, code defect: a group none of whose trigger terms was detected gets
    no entry in the result of [PhenotypingEngine.tag], so the key set of
    the result differs from that of the rule set. Here the rules are
    [{"INFECTION": ["fever", "cough"]}] and nothing was detected. *)
Theorem tag_omits_undetected_group :
  tag examples.rules ∅ = ∅
  ∧ tag examples.rules ∅ !! "INFECTION" = None
  ∧ dom (tag examples.rules ∅) ≠ dom examples.rules.
Proof.
  rewrite tag_no_detections. split; [done|]. split; [done|].
  unfold examples.rules. rewrite dom_empty_L, dom_singleton_L.
  intros Heq. assert ("INFECTION" ∈ (∅ : gset string)) as Hin
    by (rewrite Heq; by apply elem_of_singleton).
  by apply not_elem_of_empty in Hin.
Qed.

(** C3, code defect: for a blank note whose annotation has no entity span,
    [run] appends exactly one record, in the position of the note, and
    that record holds the patient identifier and nothing else: no
    phenotype group has a score in it, also not the score 0.0. *)
Theorem run_blank_note_record (nlp : string -> Doc) (config : Config)
    (before after : list NoteRow) (note : NoteRow) :
  pystr.strip (note_text note) = "" ->
  ents (nlp (note_text note)) = [] ->
  run_notes nlp config (before ++ note :: after) =
    (run_notes nlp config before
     ++ {[ "patient_id" := VStr (patient_id note) ]}
     :: run_notes nlp config after)%list
  ∧ ∀ g : string,
      ({[ "patient_id" := VStr (patient_id note) ]} : gmap string value) !! g
      ≠ Some (VFloat 0).
Proof.
  intros _ Hents. split.
  - rewrite !run_notes_map, fmap_app, fmap_cons. do 2 f_equal.
    unfold note_record, process_note, summary.
    rewrite (detect_no_entities _ _ Hents), tag_no_detections, fmap_empty.
    by rewrite (left_id_L ∅ (∪)).
  - intros g. destruct (decide (g = "patient_id")) as [->|Hne].
    + by rewrite lookup_singleton_eq.
    + by rewrite lookup_singleton_ne.
Qed.

Lemma run_blank_note_record_witness :
  run_notes examples.empty_model examples.config [ mkNoteRow "p1" "  " ]
    = [ {[ "patient_id" := VStr "p1" ]} ]
  ∧ ({[ "patient_id" := VStr "p1" ]} : gmap string value) !! "INFECTION"
    ≠ Some (VFloat 0).
Proof.
  destruct (run_blank_note_record examples.empty_model examples.config
              [] [] (mkNoteRow "p1" "  ") eq_refl eq_refl) as [Hrun Hno].
  split; [exact Hrun|exact (Hno "INFECTION")].
Defined.

(** C4, as stated, fails: in the document [Medications:] / [Aspirin daily]
    the first sentence is the header [medications] with a colon; the
    section gets the title [medications:], colon included, and the lookup
    with the header name [medications] finds nothing. *)
Lemma colon_title_counterexample :
  norm_sent examples.doc_medications 0 = "medications:"
  ∧ segment examples.doc_medications =
      [ {| title := "medications:"; sec_start := 0; sec_end := Some 4 |} ]
  ∧ extract_section_text (section_segmenter examples.doc_medications)
      "medications" = Ok None.
Proof. by vm_compute. Qed.

(** C4, amended: when the sentence that token [i] starts is, once trimmed
    and lower-cased, a recognized header followed by a colon, the
    segmenter produces a section that starts at [i] and whose title is
    that normalized text with the colon kept; the lookup finds a section
    of that title and returns its token text when it is given the header
    with the colon, in any letter case; the header name without the colon
    does not match the title of such a section. *)
Theorem header_colon_section (doc : Doc) (i : nat) (token : Token)
    (h : string) :
  tokens doc !! i = Some token -> is_sent_start token = true ->
  h ∈ headers -> norm_sent doc i = h +:+ ":" ->
  (∃ sec, sec ∈ segment doc ∧ sec_start sec = Z.of_nat i
          ∧ title sec = h +:+ ":")
  ∧ (∀ q, pystr.lower q = h +:+ ":" ->
       ∃ sec e, sec ∈ segment doc ∧ title sec = h +:+ ":"
                ∧ sec_end sec = Some e
                ∧ extract_section_text (section_segmenter doc) q =
                    Ok (Some (span_text (slice doc (sec_start sec) (e + 1)))))
  ∧ (∀ sec q, sec ∈ segment doc -> title sec = h +:+ ":" ->
       pystr.lower q = h ->
       (pystr.lower (title sec) =? pystr.lower q) = false).
Proof.
  intros Hi Hstart Hh Hnorm.
  destruct (header_colon_match h Hh) as (Hmatch & Hne & Hlow).
  destruct (header_elem_segment doc i token Hi) as (sec & Hin & Ht & Hs).
  { unfold is_header_at. by rewrite Hstart, Hnorm, Hmatch. }
  rewrite Hnorm in Ht. split; [by exists sec|]. split.
  - intros q Hq. unfold extract_section_text. simpl.
    destruct (find_section_found (section_segmenter doc) (segment doc) q sec)
      as (sec' & e & Hin' & Ht' & He & Hfind); [|done| |].
    { intros s Hs'.
      destruct (chained_bounds _ _ s (segment_chained doc) Hs') as (e & -> & _).
      by eexists. }
    { by rewrite Ht, Hlow, Hq. }
    exists sec', e. split; [done|]. split; [|split; [done|exact Hfind]].
    by rewrite <- (segment_title_lower doc sec' Hin'), Ht', Hq.
  - intros sec0 q _ Ht0 Hq. apply String.eqb_neq.
    by rewrite Ht0, Hlow, Hq.
Qed.

Lemma header_colon_section_witness :
  ∃ sec, sec ∈ segment examples.doc_medications ∧ sec_start sec = 0
         ∧ title sec = "medications:".
Proof.
  refine (proj1 (header_colon_section examples.doc_medications 0
                   (mkToken "Medications" false true) "medications"
                   eq_refl eq_refl _ eq_refl)).
  unfold headers. do 3 apply list_elem_of_further. apply list_elem_of_here.
Defined.

(** C5: when the polarity values of the detection map lie in [-1, 1] and
    a group of the rule set collects at least one value, its score in the
    result of [tag] is (mean of the collected values + 1) / 2, where the
    mean is the total of the collected values over their number; the score
    lies in [0, 1]; a sole collected value 1 gives the score 1 and a sole
    collected value -1 gives the score 0. *)
Theorem tag_score_affine (rules : gmap string (list string))
    (detected_tokens : gmap string Z) (g : string) (keywords : list string) :
  rules !! g = Some keywords ->
  collected detected_tokens keywords ≠ [] ->
  map_Forall (fun _ v => -1 <= v <= 1) detected_tokens ->
  tag rules detected_tokens !! g =
    Some ((arithmetic_mean (collected detected_tokens keywords) + 1) / 2)%Qc
  ∧ (0 ≤ (arithmetic_mean (collected detected_tokens keywords) + 1) / 2 ≤ 1)%Qc
  ∧ (collected detected_tokens keywords = [1] ->
     tag rules detected_tokens !! g = Some 1%Qc)
  ∧ (collected detected_tokens keywords = [-1] ->
     tag rules detected_tokens !! g = Some 0%Qc).
Proof.
  intros Hg Hne Hrange.
  assert (Hlookup : tag rules detected_tokens !! g =
            Some (score (collected detected_tokens keywords))).
  { rewrite tag_lookup, Hg. simpl.
    by destruct (collected detected_tokens keywords). }
  rewrite <- np_mean_arithmetic.
  split; [by rewrite Hlookup, score_nonempty|]. split.
  - unfold np_mean. apply affine_range.
    + destruct (collected detected_tokens keywords); [done|simpl; lia].
    + apply np_sum_bounds. by apply collected_Forall.
  - rewrite Hlookup. split; intros ->; f_equal; by apply Qc_is_canon.
Qed.

Lemma tag_score_affine_witness :
  tag examples.rules {[ "fever" := 1; "cough" := -1 ]} !! "INFECTION"
  = Some ((arithmetic_mean [1%Z; (-1)%Z] + 1) / 2)%Qc.
Proof.
  refine (proj1 (tag_score_affine examples.rules
                   {[ "fever" := 1; "cough" := -1 ]} "INFECTION"
                   ["fever"; "cough"] eq_refl _ _)).
  - by vm_compute.
  - apply map_Forall_insert_2; [lia|]. apply map_Forall_singleton. lia.
Defined.

(** C6: the sections the segmenter returns are in document order (a
    later section starts at a later token), no two of them overlap (a
    section ends before every later one starts), every section is closed
    with an end that is not before its start, and the last section ends
    at the last token of the document. *)
Theorem segment_sections_ordered (doc : Doc) :
  (∀ (j k : nat) (a b : Section_),
     (j < k)%nat -> segment doc !! j = Some a -> segment doc !! k = Some b ->
     sec_start a < sec_start b
     ∧ ∃ e, sec_end a = Some e ∧ e < sec_start b)
  ∧ (∀ sec, sec ∈ segment doc ->
       ∃ e, sec_end sec = Some e ∧ e >= sec_start sec)
  ∧ (∀ sec, last (segment doc) = Some sec ->
       sec_end sec = Some (len doc - 1)).
Proof.
  pose proof (segment_chained doc) as Hch. split; [|split].
  - intros j k a b Hjk Hj Hk.
    destruct (chained_lookup_lt _ _ j k a b Hch Hjk Hj Hk) as (e & He & ? & ?).
    split; [lia|]. exists e. by split.
  - intros sec Hin.
    destruct (chained_bounds _ _ sec Hch Hin) as (e & He & ? & _).
    exists e. split; [done|lia].
  - intros sec Hlast. by apply (chained_last _ _ sec Hch).
Qed.



(** C8, as stated, fails: a writer whose format is [json] raises on one
    record although the sequence is not empty and [to_csv] would have
    succeeded. *)
Lemma write_raises_counterexample :
  ¬ (raises (write examples.to_csv_ok examples.json_writer
               examples.one_record ∅).2
     ↔ examples.one_record = []
       ∨ raises (examples.to_csv_ok (output_path examples.json_writer)
                   (index examples.json_writer)
                   (pd_DataFrame examples.one_record) ∅).2).
Proof.
  intros [Hto _]. assert (Hraises : raises (write examples.to_csv_ok
    examples.json_writer examples.one_record ∅).2) by by vm_compute.
  destruct (Hto Hraises) as [Hnil|Hcsv]; [done|]. exact Hcsv.
Qed.

(** C8, amended: [DbWriter.write] raises exactly when the sequence of
    records is empty, or no record has a field, or the format of the
    writer is not [csv], or [to_csv] fails on the destination; on the
    empty sequence it raises [ValueError] and leaves the file system as
    it was. *)
Theorem write_raises_iff {FS : Type}
    (to_csv : string -> bool -> DataFrame -> FS -> FS * result unit)
    (self : DbWriter) (data : list (gmap string value)) (fs : FS) :
  (raises (write to_csv self data fs).2
   ↔ data = []
     ∨ Forall (fun row => row = ∅) data
     ∨ file_format self ≠ "csv"
     ∨ raises (to_csv (output_path self) (index self)
                 (pd_DataFrame data) fs).2)
  ∧ write to_csv self [] fs =
      (fs, Raise (ValueError "No data provided for writing.")).
Proof.
  split; [|done]. destruct data as [|row rest].
  - simpl. split; [by left|done].
  - rewrite write_cons.
    pose proof (df_empty_spec (row :: rest)) as Hspec.
    destruct (df_empty (pd_DataFrame (row :: rest))).
    + simpl. split; [intros _|done]. right; left.
      destruct Hspec as [[Hnil|Hall] _]; done.
    + destruct (String.eqb_spec (file_format self) "csv") as [Hcsv|Hfmt].
      * split; [by do 3 right|].
        intros [Hnil|[Hall|[Hfmt|Hraise]]]; [done| |done|done].
        destruct Hspec as [_ Hspec]. by discriminate Hspec; right.
      * simpl. split; [intros _|done]. by right; right; left.
Qed.

(** C9: every key of the result of [tag] is a group name of the rule
    set. *)
Theorem tag_keys_subset (rules : gmap string (list string))
    (detected_tokens : gmap string Z) :
  dom (tag rules detected_tokens) ⊆ dom rules.
Proof.
  intros g. rewrite !elem_of_dom, tag_lookup.
  destruct (rules !! g) as [keywords|]; simpl; [by eauto|].
  by intros [? ?].
Qed.

(** C10, as stated, fails: on the sequence made of one record without any
    field, a writer whose format is [json] raises [ValueError], not
    [NotImplementedError]. *)
Lemma write_unsupported_counterexample :
  ([ ∅ ] : list (gmap string value)) ≠ []
  ∧ file_format examples.json_writer ≠ "csv"
  ∧ ¬ ∃ msg, write examples.to_csv_ok examples.json_writer [ ∅ ] ∅ =
               (∅, Raise (NotImplementedError msg)).
Proof.
  split; [done|]. split; [by vm_compute|]. intros [msg Hw].
  assert (Hv : (write examples.to_csv_ok examples.json_writer [ ∅ ] ∅).2 =
    Raise (ValueError "DataFrame is empty after conversion from data."))
    by by vm_compute.
  rewrite Hw in Hv. discriminate Hv.
Qed.

(** C10, amended: on a sequence of records that is not empty, a writer
    whose format is not [csv] raises an error and leaves the file system
    as it was; the error is [NotImplementedError] when some record has a
    field, and [ValueError] when none has. *)
Theorem write_unsupported_format {FS : Type}
    (to_csv : string -> bool -> DataFrame -> FS -> FS * result unit)
    (self : DbWriter) (data : list (gmap string value)) (fs : FS) :
  data ≠ [] -> file_format self ≠ "csv" ->
  ∃ e, write to_csv self data fs = (fs, Raise e)
       ∧ if decide (Forall (fun row => row = ∅) data)
         then e = ValueError "DataFrame is empty after conversion from data."
         else e = NotImplementedError
                    ("File format '" +:+ file_format self
                     +:+ "' is not supported.").
Proof.
  intros Hdata Hfmt. destruct data as [|row rest]; [done|].
  rewrite write_cons. pose proof (df_empty_spec (row :: rest)) as Hspec.
  destruct (df_empty (pd_DataFrame (row :: rest))).
  - eexists. split; [done|]. destruct Hspec as [[Hnil|Hall] _]; [done..|].
    by rewrite decide_True.
  - destruct (String.eqb_spec (file_format self) "csv") as [Hcsv|_]; [done|].
    eexists. split; [done|]. rewrite decide_False; [done|].
    intros Hall. destruct Hspec as [_ Hspec]. by discriminate Hspec; right.
Qed.

Lemma write_unsupported_format_witness :
  write examples.to_csv_ok examples.json_writer examples.one_record ∅ =
    (∅, Raise (NotImplementedError "File format 'json' is not supported.")).
Proof.
  destruct (write_unsupported_format examples.to_csv_ok examples.json_writer
              examples.one_record ∅) as (e & Hw & He).
  - discriminate.
  - discriminate.
  - rewrite decide_False in He.
    + rewrite Hw, He. reflexivity.
    + intros Hall. apply Forall_inv in Hall. discriminate Hall.
Defined.

End Claims.

(** * Further properties *)

(** ** Detection and aggregation *)

Section MoreScoring.
Import spacy phenotyping_module.

Lemma detect_lookup (lexicon : gmap string Z) (doc : Doc) (k : string) :
  detect lexicon doc !! k =
    if decide (k ∈ entity_terms doc) then Some (default 0 (lexicon !! k))
    else None.
Proof.
  unfold detect, entity_terms. generalize (ents doc). intros l.
  induction l as [|ent l IH] using rev_ind; [done|].
  rewrite foldl_snoc, fmap_app. cbn zeta.
  destruct (decide (pystr.lower (ent_text doc ent) = k)) as [<-|Hne].
  - rewrite lookup_insert_eq, decide_True; [done|].
    apply elem_of_app. right. by apply list_elem_of_singleton.
  - rewrite lookup_insert_ne, IH by done.
    destruct (decide (k ∈ _)) as [Hin|Hnin].
    + rewrite decide_True; [done|]. apply elem_of_app. by left.
    + rewrite decide_False; [done|]. rewrite elem_of_app.
      intros [?|Hk%list_elem_of_singleton]; [done|]. by apply Hne.
Qed.

Lemma collected_nil_iff (detected_tokens : gmap string Z)
    (keywords : list string) :
  collected detected_tokens keywords = []
  ↔ ∀ kw, kw ∈ keywords -> detected_tokens !! kw = None.
Proof.
  unfold collected. induction keywords as [|kw kws IH].
  - split; [|done]. intros _ kw Hkw. by apply elem_of_nil in Hkw.
  - change (omap (fun kw => detected_tokens !! kw) (kw :: kws))
      with (match detected_tokens !! kw with
            | Some v => v :: omap (fun kw => detected_tokens !! kw) kws
            | None => omap (fun kw => detected_tokens !! kw) kws
            end).
    destruct (detected_tokens !! kw) as [v|] eqn:Hkw.
    + split; [done|]. intros Hall.
      specialize (Hall kw (list_elem_of_here _ _)). congruence.
    + rewrite IH. split.
      * intros Hall kw' [->|Hin]%elem_of_cons; [done|by apply Hall].
      * intros Hall kw' Hin. apply Hall. by right.
Qed.

Lemma score_range (vals : list Z) :
  Forall (fun v => -1 <= v <= 1) vals -> (0 ≤ score vals ≤ 1)%Qc.
Proof.
  intros Hvals. destruct (decide (vals = [])) as [->|Hne]; [done|].
  rewrite score_nonempty by done. unfold np_mean.
  apply affine_range; [|by apply np_sum_bounds].
  destruct vals; [done|simpl; lia].
Qed.

Lemma np_sum_Permutation (vals vals' : list Z) :
  vals ≡ₚ vals' -> np_sum vals = np_sum vals'.
Proof.
  unfold np_sum. induction 1; simpl; lia.
Qed.

Lemma score_Permutation (vals vals' : list Z) :
  vals ≡ₚ vals' -> score vals = score vals'.
Proof.
  intros Hp. destruct vals as [|v vals].
  - apply Permutation_nil_l in Hp. by rewrite <- Hp.
  - destruct vals' as [|v' vals'].
    + by apply Permutation_nil_r in Hp.
    + unfold score, np_mean.
      by rewrite (np_sum_Permutation _ _ Hp), (Permutation_length Hp).
Qed.

End MoreScoring.

Ltac solve_map_Forall :=
  repeat (apply map_Forall_insert_2; [lia|]);
  first [apply map_Forall_empty | apply map_Forall_singleton; lia].

Section ScoringExtras.
Import spacy phenotyping_module.

(** X1: when every polarity of the lexicon lies in [-1, 1], so does every
    value of the map that [detect] returns: the default 0 of a term that
    the lexicon does not list lies in that range as well. *)
Theorem detect_bounded (lexicon : gmap string Z) (doc : Doc) :
  map_Forall (fun _ v => -1 <= v <= 1) lexicon ->
  map_Forall (fun _ v => -1 <= v <= 1) (detect lexicon doc).
Proof.
  intros Hlex k v. rewrite detect_lookup.
  destruct (decide (k ∈ entity_terms doc)); [|done].
  intros [= <-]. destruct (lexicon !! k) as [w|] eqn:Hk; simpl; [|lia].
  by apply (Hlex k).
Qed.

Lemma detect_bounded_witness :
  map_Forall (fun _ v => -1 <= v <= 1)
    (detect examples.lexicon examples.doc_headache).
Proof.
  apply (detect_bounded examples.lexicon examples.doc_headache).
  unfold examples.lexicon. solve_map_Forall.
Defined.

(** X2: the result of [detect] depends only on which terms occur as
    entities: two documents with the same set of lower-cased entity texts
    get the same detection map, whatever the order and the number of the
    mentions. *)
Theorem detect_same_terms (lexicon : gmap string Z) (doc doc' : Doc) :
  (∀ k, k ∈ entity_terms doc ↔ k ∈ entity_terms doc') ->
  detect lexicon doc = detect lexicon doc'.
Proof.
  intros Hsame. apply map_eq. intros k. rewrite !detect_lookup.
  destruct (decide (k ∈ entity_terms doc)) as [Hin|Hnin].
  - rewrite decide_True; [done|]. by apply Hsame.
  - rewrite decide_False; [done|]. by rewrite <- Hsame.
Qed.

Lemma detect_same_terms_witness :
  detect examples.lexicon examples.doc_fever
  = detect examples.lexicon examples.doc_fever_twice.
Proof.
  apply (detect_same_terms examples.lexicon examples.doc_fever
           examples.doc_fever_twice).
  intros k. change (entity_terms examples.doc_fever) with ["fever"].
  change (entity_terms examples.doc_fever_twice) with ["fever"; "fever"].
  rewrite !elem_of_cons, elem_of_nil. tauto.
Defined.

(** X3: a group has an entry in the result of [tag] exactly when it is a
    group of the rule set and one of its trigger terms is a key of the
    detection map. *)
Theorem tag_domain (rules : gmap string (list string))
    (detected_tokens : gmap string Z) (g : string) :
  g ∈ dom (tag rules detected_tokens)
  ↔ ∃ keywords kw, rules !! g = Some keywords ∧ kw ∈ keywords
                   ∧ is_Some (detected_tokens !! kw).
Proof.
  rewrite elem_of_dom, tag_lookup. split.
  - destruct (rules !! g) as [keywords|] eqn:Hg; simpl; [|by intros [? ?]].
    intros Hsome. exists keywords.
    destruct (collected detected_tokens keywords) as [|v vals] eqn:Hc;
      [by destruct Hsome|].
    assert (v ∈ collected detected_tokens keywords) as Hv
      by (rewrite Hc; left).
    apply list_elem_of_omap in Hv as (kw & Hkw & Hdet). exists kw. eauto.
  - intros (keywords & kw & -> & Hkw & [v Hv]). simpl.
    destruct (collected detected_tokens keywords) as [|w vals] eqn:Hc;
      [|by eexists].
    pose proof (proj1 (collected_nil_iff _ _) Hc kw Hkw). congruence.
Qed.

(** X4: no group is stored with an empty list of values by the first loop
    of [tag], so the second loop always takes the branch that computes
    (mean + 1) / 2 and never the one that stores 0.0. *)
Theorem tag_grouped_nonempty (rules : gmap string (list string))
    (detected_tokens : gmap string Z) (g : string) (vals : list Z) :
  tag_grouped rules detected_tokens !! g = Some vals ->
  vals ≠ [] ∧ tag rules detected_tokens !! g = Some ((np_mean vals + 1) / 2)%Qc.
Proof.
  intros Hg. pose proof Hg as Hg'. rewrite tag_grouped_lookup in Hg'.
  assert (Hne : vals ≠ []).
  { destruct (rules !! g) as [keywords|]; simpl in Hg'; [|done].
    destruct (collected detected_tokens keywords); [done|].
    by injection Hg' as <-. }
  split; [done|].
  by rewrite tag_fmap, lookup_fmap, Hg, <- score_nonempty.
Qed.

Lemma tag_grouped_nonempty_witness :
  tag examples.rules {[ "fever" := 1; "cough" := -1 ]} !! "INFECTION"
  = Some (score [1; -1]).
Proof.
  refine (proj2 (tag_grouped_nonempty examples.rules
                   {[ "fever" := 1; "cough" := -1 ]} "INFECTION" [1; -1] _)).
  by vm_compute.
Defined.

(** X5: the order of the trigger terms of a group does not matter: listing
    them in another order gives the same result of [tag]. *)
Theorem tag_trigger_order (rules : gmap string (list string))
    (detected_tokens : gmap string Z) (g : string)
    (keywords keywords' : list string) :
  keywords ≡ₚ keywords' ->
  tag (<[g := keywords]> rules) detected_tokens
  = tag (<[g := keywords']> rules) detected_tokens.
Proof.
  intros Hp. apply map_eq. intros g'. rewrite !tag_lookup.
  destruct (decide (g = g')) as [<-|Hne];
    [|by rewrite !lookup_insert_ne by done].
  rewrite !lookup_insert_eq. simpl.
  assert (Hc : collected detected_tokens keywords
               ≡ₚ collected detected_tokens keywords')
    by (unfold collected; by rewrite Hp).
  destruct (collected detected_tokens keywords) as [|v vals] eqn:Hk.
  - apply Permutation_nil_l in Hc. by rewrite <- Hc.
  - destruct (collected detected_tokens keywords') as [|v' vals'] eqn:Hk'.
    + by apply Permutation_nil_r in Hc.
    + f_equal. exact (score_Permutation (v :: vals) (v' :: vals') Hc).
Qed.

Lemma tag_trigger_order_witness :
  tag (<["INFECTION" := ["fever"; "cough"]]> ∅) {[ "fever" := 1 ]}
  = tag (<["INFECTION" := ["cough"; "fever"]]> ∅) {[ "fever" := 1 ]}.
Proof.
  apply (tag_trigger_order ∅ {[ "fever" := 1 ]} "INFECTION").
  apply perm_swap.
Defined.

(** X6: [tag] reads the detection map only at the trigger terms of the
    rule set: two detection maps that agree on every trigger term give the
    same result. *)
Theorem tag_only_triggers (rules : gmap string (list string))
    (detected_tokens detected_tokens' : gmap string Z) :
  (∀ g keywords kw, rules !! g = Some keywords -> kw ∈ keywords ->
                    detected_tokens !! kw = detected_tokens' !! kw) ->
  tag rules detected_tokens = tag rules detected_tokens'.
Proof.
  intros Hagree. apply map_eq. intros g. rewrite !tag_lookup.
  destruct (rules !! g) as [keywords|] eqn:Hg; simpl; [|done].
  replace (collected detected_tokens' keywords)
    with (collected detected_tokens keywords); [done|].
  unfold collected. apply list_omap_ext; [|done..].
  apply Forall2_same_length_lookup_2; [done|].
  intros i kw kw' Hkw Hkw'. assert (kw = kw') as <- by congruence.
  apply (Hagree g keywords); [done|]. by apply list_elem_of_lookup_2 in Hkw.
Qed.

Lemma tag_only_triggers_witness :
  tag examples.rules {[ "fever" := 1 ]}
  = tag examples.rules {[ "fever" := 1; "headache" := 0 ]}.
Proof.
  apply (tag_only_triggers examples.rules).
  intros g keywords kw Hg Hkw. unfold examples.rules in Hg.
  apply lookup_singleton_Some in Hg as [_ <-].
  apply elem_of_cons in Hkw as [->|Hkw]; [reflexivity|].
  apply list_elem_of_singleton in Hkw as ->. reflexivity.
Defined.

(** X7: an entity term that the lexicon does not list is detected with the
    value 0, so a group whose only trigger it is gets the score 1/2. *)
Theorem unknown_trigger_half (lexicon : gmap string Z) (doc : Doc)
    (rules : gmap string (list string)) (g t : string) :
  t ∈ entity_terms doc -> lexicon !! t = None -> rules !! g = Some [t] ->
  tag rules (detect lexicon doc) !! g = Some (Q2Qc (1 # 2)).
Proof.
  intros Hin Hlex Hg. rewrite tag_lookup, Hg. simpl. unfold collected. simpl.
  rewrite detect_lookup, decide_True, Hlex by done. simpl.
  apply (f_equal Some), Qc_is_canon. reflexivity.
Qed.

Lemma unknown_trigger_half_witness :
  tag examples.pain_rules (detect examples.lexicon examples.doc_headache)
    !! "PAIN" = Some (Q2Qc (1 # 2)).
Proof.
  apply (unknown_trigger_half examples.lexicon examples.doc_headache
           examples.pain_rules "PAIN" "headache").
  - change (entity_terms examples.doc_headache) with ["headache"].
    apply list_elem_of_here.
  - reflexivity.
  - reflexivity.
Defined.

End ScoringExtras.

(** ** The records of a run *)

Section MoreRun.
Import spacy phenotyping_module.

Lemma summary_dom (note : NoteRow) (pheno_scores : gmap string Qc) :
  dom (summary note pheno_scores) = dom pheno_scores ∪ {[ "patient_id" ]}.
Proof. unfold summary. by rewrite dom_union_L, dom_fmap_L, dom_singleton_L. Qed.

Lemma summary_patient_id (note : NoteRow) (pheno_scores : gmap string Qc) :
  summary note pheno_scores !! "patient_id" =
    Some (match pheno_scores !! "patient_id" with
          | Some q => VFloat q
          | None => VStr (patient_id note)
          end).
Proof.
  unfold summary. rewrite lookup_union, lookup_fmap, lookup_singleton_eq.
  by destruct (pheno_scores !! "patient_id").
Qed.

Lemma summary_score (note : NoteRow) (pheno_scores : gmap string Qc)
    (k : string) (q : Qc) :
  summary note pheno_scores !! k = Some (VFloat q) -> pheno_scores !! k = Some q.
Proof.
  unfold summary. rewrite lookup_union_Some_raw, lookup_fmap.
  intros [Hk|[_ Hk]].
  - destruct (pheno_scores !! k) as [q'|]; simpl in Hk; congruence.
  - by apply lookup_singleton_Some in Hk as [_ ?].
Qed.

Lemma tag_bounded (rules : gmap string (list string))
    (detected_tokens : gmap string Z) :
  map_Forall (fun _ v => -1 <= v <= 1) detected_tokens ->
  map_Forall (fun _ q => (0 ≤ q ≤ 1)%Qc) (tag rules detected_tokens).
Proof.
  intros Hdet g q. rewrite tag_lookup.
  destruct (rules !! g) as [keywords|]; simpl; [|done].
  destruct (collected detected_tokens keywords) as [|v vals] eqn:Hc; [done|].
  intros [= <-].
  pose proof (score_range (collected detected_tokens keywords)
                (collected_Forall _ _ _ Hdet)) as Hr.
  by rewrite Hc in Hr.
Qed.

Lemma detect_values_bounded (lexicon : gmap string Z) (doc : Doc) :
  map_Forall (fun _ v => -1 <= v <= 1) lexicon ->
  map_Forall (fun _ v => -1 <= v <= 1) (detect lexicon doc).
Proof.
  intros Hlex k v. rewrite detect_lookup.
  destruct (decide (k ∈ entity_terms doc)); [|done].
  intros [= <-]. destruct (lexicon !! k) as [w|] eqn:Hk; simpl; [|lia].
  by apply (Hlex k).
Qed.

End MoreRun.

Section RunExtras.
Import spacy phenotyping_module.

(** X8: [run] builds one record per note, in the order of the notes: the
    record at position [i] is the one of the note at position [i], made of
    its patient identifier and of the scores that [tag] gives the
    detections of its text. Every record has the key [patient_id], and its
    other keys are group names of the rule set. Two notes of one patient
    give two records. *)
Theorem run_one_record_per_note (nlp : string -> Doc) (config : Config)
    (notes : list NoteRow) :
  length (run_notes nlp config notes) = length notes
  ∧ ∀ (i : nat) (note : NoteRow), notes !! i = Some note ->
      ∃ rec, run_notes nlp config notes !! i = Some rec
             ∧ rec = (VFloat <$> tag (phenotyping_rules config)
                                   (detect (valence_lexicon config)
                                           (nlp (note_text note))))
                     ∪ {[ "patient_id" := VStr (patient_id note) ]}
             ∧ "patient_id" ∈ dom rec
             ∧ dom rec ⊆ {[ "patient_id" ]} ∪ dom (phenotyping_rules config).
Proof.
  rewrite run_notes_map, length_fmap. split; [done|]. intros i note Hi.
  exists (note_record nlp config note).
  rewrite list_lookup_fmap, Hi. split; [done|]. split; [done|].
  unfold note_record. rewrite summary_dom. split.
  - apply elem_of_union. right. by apply elem_of_singleton.
  - intros k [Hk|Hk]%elem_of_union; apply elem_of_union; [right|by left].
    apply elem_of_dom in Hk. rewrite tag_lookup in Hk. apply elem_of_dom.
    destruct (phenotyping_rules config !! k); [done|by destruct Hk].
Qed.

(** X9: when no phenotype group is named [patient_id], the records carry
    the patient identifiers of the notes, in the same order. *)
Theorem run_patient_ids (nlp : string -> Doc) (config : Config)
    (notes : list NoteRow) :
  phenotyping_rules config !! "patient_id" = None ->
  (fun rec : gmap string value => rec !! "patient_id")
    <$> run_notes nlp config notes
  = (fun note => Some (VStr (patient_id note))) <$> notes.
Proof.
  intros Hnone. rewrite run_notes_map, <- list_fmap_compose.
  apply list_fmap_ext. intros i note _. simpl. unfold note_record.
  by rewrite summary_patient_id, tag_lookup, Hnone.
Qed.

Lemma run_patient_ids_witness :
  (fun rec : gmap string value => rec !! "patient_id")
    <$> run_notes examples.fever_model examples.config
          [ mkNoteRow "p1" "fever"; mkNoteRow "p1" "still fever" ]
  = [ Some (VStr "p1"); Some (VStr "p1") ].
Proof.
  apply (run_patient_ids examples.fever_model examples.config
           [ mkNoteRow "p1" "fever"; mkNoteRow "p1" "still fever" ]).
  reflexivity.
Defined.

(** X10: a phenotype group that is named [patient_id] and has a detected
    trigger term overwrites the patient identifier of the record with its
    score. *)
Theorem run_patient_id_overwritten (nlp : string -> Doc) (config : Config)
    (note : NoteRow) (keywords : list string) :
  phenotyping_rules config !! "patient_id" = Some keywords ->
  collected (detect (valence_lexicon config) (nlp (note_text note))) keywords
    ≠ [] ->
  ∃ rec, run_notes nlp config [note] = [rec]
         ∧ rec !! "patient_id" =
             Some (VFloat (score (collected
                     (detect (valence_lexicon config) (nlp (note_text note)))
                     keywords))).
Proof.
  intros Hg Hne. exists (note_record nlp config note).
  rewrite run_notes_map. split; [done|]. unfold note_record, process_note.
  rewrite summary_patient_id, tag_lookup, Hg. simpl.
  by destruct (collected _ keywords).
Qed.

Lemma run_patient_id_overwritten_witness :
  ∃ rec, run_notes examples.fever_model examples.clash_config
           [ mkNoteRow "p1" "fever" ] = [rec]
         ∧ rec !! "patient_id" = Some (VFloat (score [1])).
Proof.
  apply (run_patient_id_overwritten examples.fever_model
           examples.clash_config (mkNoteRow "p1" "fever") ["fever"]).
  - reflexivity.
  - by vm_compute.
Defined.

(** X11: when every polarity of the lexicon lies in [-1, 1], every score
    in every record of a run lies in [0, 1]. *)
Theorem run_scores_bounded (nlp : string -> Doc) (config : Config)
    (notes : list NoteRow) (rec : gmap string value) (k : string) (q : Qc) :
  map_Forall (fun _ v => -1 <= v <= 1) (valence_lexicon config) ->
  rec ∈ run_notes nlp config notes -> rec !! k = Some (VFloat q) ->
  (0 ≤ q ≤ 1)%Qc.
Proof.
  intros Hlex Hrec Hk. rewrite run_notes_map in Hrec.
  apply list_elem_of_fmap in Hrec as (note & -> & _).
  unfold note_record in Hk. apply summary_score in Hk.
  apply (tag_bounded _ _ (detect_values_bounded _ _ Hlex) k q Hk).
Qed.

Lemma run_scores_bounded_witness : (0 ≤ score [1%Z] ≤ 1)%Qc.
Proof.
  apply (run_scores_bounded examples.fever_model examples.config
           [ mkNoteRow "p1" "fever" ]
           (note_record examples.fever_model examples.config
              (mkNoteRow "p1" "fever"))
           "INFECTION").
  - unfold examples.config, examples.lexicon. simpl. solve_map_Forall.
  - apply list_elem_of_here.
  - by vm_compute.
Defined.

(** X12: the records of a run over at least one note pass the guards of
    [DbWriter.write] of [db_writer.py]: a writer whose format is [csv]
    hands their data frame to [to_csv], and the outcome is that of
    [to_csv]. *)
Theorem write_accepts_run_output {FS : Type}
    (to_csv : string -> bool -> DataFrame -> FS -> FS * result unit)
    (self : db_writer.DbWriter) (nlp : string -> Doc) (config : Config)
    (notes : list NoteRow) (fs : FS) :
  notes ≠ [] -> db_writer.file_format self = "csv" ->
  db_writer.write to_csv self (run_notes nlp config notes) fs
  = to_csv (db_writer.output_path self) (db_writer.index self)
      (pd_DataFrame (run_notes nlp config notes)) fs.
Proof.
  intros Hnotes Hfmt. rewrite run_notes_map.
  destruct notes as [|note notes]; [done|]. rewrite fmap_cons, write_cons.
  rewrite Hfmt. simpl (_ =? _).
  destruct (df_empty _) eqn:Hempty; [|done].
  apply df_empty_spec in Hempty as [Hnil|Hall]; [done|].
  apply Forall_inv in Hall.
  assert ("patient_id" ∈ dom (note_record nlp config note)) as Hin.
  { unfold note_record. rewrite summary_dom. apply elem_of_union. right.
    by apply elem_of_singleton. }
  rewrite Hall, dom_empty_L in Hin. by apply not_elem_of_empty in Hin.
Qed.

Lemma write_accepts_run_output_witness :
  db_writer.write examples.to_csv_ok examples.csv_writer
    (run_notes examples.empty_model examples.config [ mkNoteRow "p1" "" ]) ∅
  = examples.to_csv_ok "out/phenotypes.csv" false
      (pd_DataFrame
         (run_notes examples.empty_model examples.config [ mkNoteRow "p1" "" ]))
      ∅.
Proof.
  apply (write_accepts_run_output examples.to_csv_ok examples.csv_writer
           examples.empty_model examples.config [ mkNoteRow "p1" "" ] ∅).
  - discriminate.
  - reflexivity.
Defined.

End RunExtras.

(** ** Sections and their lookup *)

Section MoreSegmenter.
Import spacy nlp_pipeline.

Lemma chained_adjacent (secs : list Section_) (stop : Z) (j : nat)
    (a b : Section_) :
  chained secs stop -> secs !! j = Some a -> secs !! S j = Some b ->
  sec_end a = Some (sec_start b - 1).
Proof.
  revert j. induction secs as [|s rest IH]; intros j Hch Hj Hk; [done|].
  destruct Hch as (Hend & _ & Hrest). destruct j as [|j]; simpl in *.
  - injection Hj as ->. destruct rest as [|c rest]; [done|].
    by injection Hk as ->.
  - by apply (IH j).
Qed.

Lemma chained_cover (secs : list Section_) (stop : Z) (s0 : Section_) (n : Z) :
  chained secs stop -> head secs = Some s0 -> sec_start s0 <= n < stop ->
  ∃ sec e, sec ∈ secs ∧ sec_end sec = Some e ∧ sec_start sec <= n <= e.
Proof.
  revert s0. induction secs as [|s rest IH]; intros s0 Hch Hhd Hn; [done|].
  injection Hhd as ->. destruct Hch as (Hend & Hstart & Hrest).
  destruct rest as [|c rest].
  - exists s0, (stop - 1). split; [left|]. split; [done|lia].
  - destruct (decide (n < sec_start c)) as [Hlt|Hge].
    + exists s0, (sec_start c - 1). split; [left|]. split; [done|lia].
    + destruct (IH c Hrest eq_refl) as (sec & e & Hin & He & Hr); [lia|].
      exists sec, e. split; [by right|done].
Qed.

(** The sections are computed from the tokens alone. *)
Lemma sent_text_tokens (doc doc' : Doc) (i : nat) :
  tokens doc = tokens doc' -> sent_text doc i = sent_text doc' i.
Proof.
  intros Htok.
  assert (Hbegin : sent_begin doc i = sent_begin doc' i).
  { induction i as [|i IH]; [done|]. simpl. unfold flag_at. by rewrite Htok, IH. }
  unfold sent_text, slice, sent_stop. by rewrite Hbegin, Htok.
Qed.

Lemma segment_loop_tokens (doc doc' : Doc) (toks : list Token) (i : nat)
    (secs : list Section_) :
  tokens doc = tokens doc' ->
  segment_loop doc i toks secs = segment_loop doc' i toks secs.
Proof.
  intros Htok. revert i secs.
  induction toks as [|token rest IH]; intros i secs; simpl; [done|].
  rewrite IH. unfold segment_step. by rewrite (sent_text_tokens doc doc' i Htok).
Qed.

Lemma segment_tokens (doc doc' : Doc) :
  tokens doc = tokens doc' -> segment doc = segment doc'.
Proof.
  intros Htok. unfold segment, len.
  by rewrite (segment_loop_tokens doc doc' _ _ _ Htok), Htok.
Qed.

(** *** The last character of a normalized sentence *)

Lemma rstrip_last (s : string) (c : ascii) :
  last_char (pystr.rstrip s) = Some c -> pystr.isspace c = false.
Proof.
  induction s as [|a s IH]; simpl; [done|].
  destruct (pystr.rstrip s) as [|b r] eqn:Hr.
  - destruct (pystr.isspace a) eqn:Ha; simpl; [done|]. by intros [= <-].
  - exact IH.
Qed.

Lemma last_char_lower (s : string) :
  last_char (pystr.lower s) = pystr.lower_ascii <$> last_char s.
Proof.
  induction s as [|a s IH]; simpl; [done|].
  destruct s as [|b s]; [done|]. exact IH.
Qed.

Lemma isspace_lower (c : ascii) :
  pystr.isspace (pystr.lower_ascii c) = pystr.isspace c.
Proof. by destruct c as [[] [] [] [] [] [] [] []]. Qed.

Lemma last_char_app (s t : string) :
  t ≠ "" -> last_char (s +:+ t) = last_char t.
Proof.
  intros Ht. induction s as [|a s IH]; simpl; [done|].
  destruct (s +:+ t) as [|b r] eqn:Hst; [|exact IH].
  destruct s; [by simpl in Hst|done].
Qed.

Lemma norm_sent_last (doc : Doc) (i : nat) (c : ascii) :
  last_char (norm_sent doc i) = Some c -> pystr.isspace c = false.
Proof.
  unfold norm_sent, pystr.strip. rewrite last_char_lower.
  destruct (last_char (pystr.rstrip _)) as [d|] eqn:Hd; [|done].
  intros [= <-]. rewrite isspace_lower. by apply (rstrip_last _ _ Hd).
Qed.

(** *** The case folding of the pattern *)

Lemma fold_case_cons (c1 : ascii) (tl : string) :
  fold_case (String c1 tl) =
    match tl with
    | EmptyString => String (pystr.lower_ascii c1) EmptyString
    | String c2 rest =>
        if ((nat_of_ascii c1 =? 197) && (nat_of_ascii c2 =? 191))%nat
        then String "s" (fold_case rest)
        else if ((nat_of_ascii c1 =? 196) && (nat_of_ascii c2 =? 177))%nat
        then String "i" (fold_case rest)
        else String (pystr.lower_ascii c1) (fold_case tl)
    end.
Proof. by destruct tl. Qed.

Lemma last_char_cons (a : ascii) (s : string) (c : ascii) :
  last_char (String a s) = Some c ->
  (s = "" ∧ c = a) ∨ (s ≠ "" ∧ last_char s = Some c).
Proof.
  destruct s as [|b r]; simpl; [intros [= <-]; by left|]. intros H. by right.
Qed.

Lemma last_char_cons_r (a : ascii) (s : string) :
  s ≠ "" -> last_char (String a s) = last_char s.
Proof. by destruct s. Qed.

Lemma last_char_Some_nonempty (s : string) (c : ascii) :
  last_char s = Some c -> s ≠ "".
Proof. by destruct s. Qed.

(** Folding does not turn the last character into whitespace. *)
Lemma fold_case_last_space (s : string) (c : ascii) :
  last_char (fold_case s) = Some c -> pystr.isspace c = true ->
  ∃ c', last_char s = Some c' ∧ pystr.isspace c' = true.
Proof.
  remember (String.length s) as n eqn:Hn. revert s Hn c.
  induction n as [n IH] using lt_wf_ind. intros s Hn c Hlast Hc.
  destruct s as [|c1 tl]; [done|]. rewrite fold_case_cons in Hlast.
  destruct tl as [|c2 rest].
  - simpl in Hlast. injection Hlast as <-. exists c1.
    by rewrite isspace_lower in Hc.
  - assert (Hrest : ∀ a, last_char (String a (fold_case rest)) = Some c ->
              pystr.isspace a = false ->
              ∃ c', last_char (String c1 (String c2 rest)) = Some c'
                    ∧ pystr.isspace c' = true).
    { intros a Ha Hna. apply last_char_cons in Ha as [[_ ->]|[_ Ha]];
        [congruence|].
      destruct (IH (String.length rest)) with (s := rest) (c := c)
        as (c' & Hc' & Hs'); [simpl in Hn; lia|done..|].
      exists c'. split; [|done].
      pose proof (last_char_Some_nonempty _ _ Hc') as Hne.
      rewrite last_char_cons_r by done. by rewrite last_char_cons_r. }
    destruct ((nat_of_ascii c1 =? 197) && (nat_of_ascii c2 =? 191))%nat;
      [by apply (Hrest "s"%char)|].
    destruct ((nat_of_ascii c1 =? 196) && (nat_of_ascii c2 =? 177))%nat;
      [by apply (Hrest "i"%char)|].
    apply last_char_cons in Hlast as [[Hnil _]|[_ Hlast]].
    { rewrite fold_case_cons in Hnil. destruct rest as [|c3 r]; [done|].
      by repeat case_match. }
    destruct (IH (String.length (String c2 rest))) with
      (s := String c2 rest) (c := c) as (c' & Hc' & Hs');
      [simpl in Hn |- *; lia|done..|].
    exists c'. split; [|done]. by rewrite last_char_cons_r.
Qed.

(** On ASCII text the folding is [lower]. *)
Lemma fold_case_ascii (s : string) :
  is_ascii s = true -> fold_case s = pystr.lower s.
Proof.
  induction s as [|c1 tl IH]; [done|]. intros Hs. simpl in Hs.
  apply andb_true_iff in Hs as [Hc1 Htl]. apply Nat.ltb_lt in Hc1.
  rewrite fold_case_cons. destruct tl as [|c2 rest]; [done|].
  rewrite (proj2 (Nat.eqb_neq (nat_of_ascii c1) 197)) by lia.
  rewrite (proj2 (Nat.eqb_neq (nat_of_ascii c1) 196)) by lia.
  simpl andb. cbv iota. by rewrite (IH Htl).
Qed.

(** A normalized sentence that matches the pattern is, letter case folded,
    a header with or without the colon. *)
Lemma norm_sent_match (doc : Doc) (i : nat) :
  pattern_match (norm_sent doc i) = true ->
  fold_case (norm_sent doc i) ∈ headers
  ∨ ∃ h, h ∈ headers ∧ fold_case (norm_sent doc i) = h +:+ ":".
Proof.
  unfold pattern_match. intros Hm.
  apply existsb_exists in Hm as (h & Hh%list_elem_of_In & Hm).
  assert (Hlast : ∀ pre suf, suf ≠ "" ->
            last_char suf = Some (ascii_of_nat 10) ->
            fold_case (norm_sent doc i) ≠ pre +:+ suf).
  { intros pre suf Hsuf Hnl Heq.
    assert (Hl : last_char (fold_case (norm_sent doc i))
                 = Some (ascii_of_nat 10))
      by (rewrite Heq; by rewrite last_char_app).
    destruct (fold_case_last_space _ _ Hl eq_refl) as (c' & Hc' & Hs').
    by rewrite (norm_sent_last doc i c' Hc') in Hs'. }
  apply orb_true_iff in Hm as [Hm|Hnl].
  - apply orb_true_iff in Hm as [Hm|Hnl].
    + apply orb_true_iff in Hm as [Hm|Hm]; apply String.eqb_eq in Hm.
      * left. by rewrite Hm.
      * right. by exists h.
    + apply String.eqb_eq in Hnl. by destruct (Hlast h newline).
  - apply String.eqb_eq in Hnl.
    by destruct (Hlast h (":" +:+ newline)).
Qed.

(** *** The first match of the lookup *)

Lemma find_section_first (doc : Doc) (secs : list Section_) (q : string)
    (j : nat) (sec : Section_) :
  (∀ s, s ∈ secs -> is_Some (sec_end s)) ->
  secs !! j = Some sec -> pystr.lower (title sec) = pystr.lower q ->
  ∃ j' sec' e,
    (j' <= j)%nat ∧ secs !! j' = Some sec'
    ∧ pystr.lower (title sec') = pystr.lower q ∧ sec_end sec' = Some e
    ∧ (∀ k s, (k < j')%nat -> secs !! k = Some s ->
              pystr.lower (title s) ≠ pystr.lower q)
    ∧ find_section doc secs q =
        Ok (Some (span_text (slice doc (sec_start sec') (e + 1)))).
Proof.
  revert j. induction secs as [|a rest IH]; intros j Hclosed Hj Hq; [done|].
  simpl.
  destruct (String.eqb_spec (pystr.lower (title a)) (pystr.lower q)) as [Heq|Hne].
  - destruct (Hclosed a) as [e He]; [left|].
    exists 0%nat, a, e. rewrite He. repeat split; try done; [lia|].
    intros k s Hk. lia.
  - destruct j as [|j]; simpl in Hj; [by injection Hj as ->|].
    destruct (IH j) as (j' & sec' & e & Hle & Hj' & Ht & He & Hmin & Hfind);
      [|done|done|].
    { intros s Hs. apply Hclosed. by right. }
    exists (S j'), sec', e. repeat split; try done; [lia|].
    intros [|k] s Hk Hs; simpl in Hs; [by injection Hs as <-|].
    apply (Hmin k); [lia|done].
Qed.

Lemma segment_closed (doc : Doc) (s : Section_) :
  s ∈ segment doc -> is_Some (sec_end s).
Proof.
  intros Hs.
  destruct (chained_bounds _ _ s (segment_chained doc) Hs) as (e & -> & _).
  by eexists.
Qed.

Lemma slice_length (doc : Doc) (a b : Z) :
  0 <= a <= b -> b <= len doc ->
  length (slice doc a b) = Z.to_nat (b - a).
Proof.
  unfold slice, len. intros Hab Hb. rewrite length_take, length_drop. lia.
Qed.

End MoreSegmenter.

Section SegmenterExtras.
Import spacy nlp_pipeline.

(** X13: the sections are exactly the header lines: there is a section
    with title [t] that starts at [z] if and only if [z] is the index of a
    token that starts a sentence whose trimmed, lower-cased text is [t] and
    matches the header pattern. *)
Theorem segment_headers_exact (doc : Doc) (t : string) (z : Z) :
  (∃ sec, sec ∈ segment doc ∧ title sec = t ∧ sec_start sec = z)
  ↔ ∃ (i : nat) (token : Token),
      tokens doc !! i = Some token ∧ is_sent_start token = true
      ∧ pattern_match (norm_sent doc i) = true
      ∧ t = norm_sent doc i ∧ z = Z.of_nat i.
Proof.
  split.
  - intros (sec & Hin & <- & <-).
    destruct (segment_elem_header doc sec Hin) as (i & token & Hi & Hh & Ht & Hs).
    apply andb_true_iff in Hh as [Hstart Hm]. exists i, token. by repeat split.
  - intros (i & token & Hi & Hstart & Hm & -> & ->).
    destruct (header_elem_segment doc i token Hi) as (sec & Hin & Ht & Hs).
    { unfold is_header_at. by rewrite Hstart, Hm. }
    by exists sec.
Qed.

(** X14: the sections tile the document from the first header on: each
    section ends right before the next one starts, every section lies
    within the token range of the document, and every token index from the
    start of the first section to the end of the document lies in a
    section. *)
Theorem segment_partition (doc : Doc) :
  (∀ (j : nat) (a b : Section_),
     segment doc !! j = Some a -> segment doc !! S j = Some b ->
     sec_end a = Some (sec_start b - 1))
  ∧ (∀ sec, sec ∈ segment doc ->
       ∃ e, sec_end sec = Some e ∧ 0 <= sec_start sec <= e ∧ e <= len doc - 1)
  ∧ (∀ (s0 : Section_) (n : Z),
       head (segment doc) = Some s0 -> sec_start s0 <= n < len doc ->
       ∃ sec e, sec ∈ segment doc ∧ sec_end sec = Some e
                ∧ sec_start sec <= n <= e).
Proof.
  pose proof (segment_chained doc) as Hch. split; [|split].
  - intros j a b. apply (chained_adjacent _ _ j a b Hch).
  - intros sec Hin.
    destruct (chained_bounds _ _ sec Hch Hin) as (e & He & ? & ?).
    exists e. split; [done|]. split; [done|lia].
  - intros s0 n. apply (chained_cover _ _ s0 n Hch).
Qed.

(** X15: the title of a section is, once the letter case that the
    pattern ignores is folded, one of the seven header strings or such a
    string followed by a colon; a title made of ASCII characters is itself
    one of these fourteen strings, in lower case and without surrounding
    whitespace. *)
Theorem section_titles_closed (doc : Doc) (sec : Section_) :
  sec ∈ segment doc ->
  (fold_case (title sec) ∈ headers
   ∨ ∃ h, h ∈ headers ∧ fold_case (title sec) = h +:+ ":")
  ∧ (is_ascii (title sec) = true ->
     title sec ∈ headers ∨ ∃ h, h ∈ headers ∧ title sec = h +:+ ":").
Proof.
  intros Hin.
  destruct (segment_elem_header doc sec Hin) as (i & token & _ & Hh & Ht & _).
  apply andb_true_iff in Hh as [_ Hm].
  pose proof (norm_sent_match doc i Hm) as Hfold. rewrite <- Ht in Hfold.
  split; [done|]. intros Hascii.
  rewrite (fold_case_ascii _ Hascii) in Hfold.
  by rewrite (segment_title_lower doc sec Hin) in Hfold.
Qed.

Lemma section_titles_closed_witness :
  "medications:" ∈ headers ∨ ∃ h, h ∈ headers ∧ "medications:" = h +:+ ":".
Proof.
  refine (proj2 (section_titles_closed examples.doc_medications
            {| title := "medications:"; sec_start := 0; sec_end := Some 4 |}
            _) eq_refl).
  apply list_elem_of_here.
Defined.

(** X16: the segmenter reads the tokens only: documents with the same
    tokens get the same sections, whatever their entities and the sections
    stored before; running the segmenter again changes nothing. *)
Theorem segmenter_idempotent (doc : Doc) :
  section_segmenter (section_segmenter doc) = section_segmenter doc
  ∧ ∀ doc', tokens doc' = tokens doc -> segment doc' = segment doc.
Proof.
  split; [|intros doc'; apply segment_tokens].
  pose proof (segment_tokens (section_segmenter doc) doc eq_refl) as Hseg.
  change (section_segmenter (section_segmenter doc))
    with {| tokens := tokens doc; ents := ents doc;
            sections_ext := Some (segment (section_segmenter doc)) |}.
  by rewrite Hseg.
Qed.

(** X17: on a document that went through the segmenter the lookup never
    raises, and it returns [None] exactly when no section has the
    lower-cased requested title. *)
Theorem lookup_total (doc : Doc) (section_title : string) :
  (∃ r, extract_section_text (section_segmenter doc) section_title = Ok r)
  ∧ (extract_section_text (section_segmenter doc) section_title = Ok None
     ↔ ∀ sec, sec ∈ segment doc -> title sec ≠ pystr.lower section_title).
Proof.
  unfold extract_section_text. simpl.
  destruct (decide (Exists (fun sec => title sec = pystr.lower section_title)
                      (segment doc)))
    as [(sec & Hin & Ht)%Exists_exists|Hnone].
  - destruct (find_section_found (section_segmenter doc) (segment doc)
                section_title sec) as (sec' & e & _ & _ & _ & Hfind).
    { apply segment_closed. }
    { done. }
    { by rewrite (segment_title_lower doc sec Hin). }
    rewrite Hfind. split; [by eexists|]. split; [done|].
    intros Hno. by destruct (Hno sec Hin).
  - assert (Hno : ∀ sec, sec ∈ segment doc ->
                         title sec ≠ pystr.lower section_title)
      by (intros sec Hin Ht; apply Hnone, Exists_exists; eauto).
    rewrite find_section_none.
    + split; [by eexists|done].
    + intros sec Hin. rewrite (segment_title_lower doc sec Hin). by apply Hno.
Qed.

(** X18: the lookup does not distinguish letter case in the requested
    title: two titles with the same lower-case form give the same
    result, on every document. *)
Theorem lookup_case_insensitive (doc : Doc) (q q' : string) :
  pystr.lower q = pystr.lower q' ->
  extract_section_text doc q = extract_section_text doc q'.
Proof.
  intros Hq. unfold extract_section_text.
  destruct (sections_ext doc) as [secs|]; [|done].
  induction secs as [|sec rest IH]; simpl; [done|]. by rewrite Hq, IH.
Qed.

Lemma lookup_case_insensitive_witness :
  extract_section_text (section_segmenter examples.doc_medications)
    "Medications:"
  = extract_section_text (section_segmenter examples.doc_medications)
      "MEDICATIONS:".
Proof.
  apply (lookup_case_insensitive (section_segmenter examples.doc_medications)
           "Medications:" "MEDICATIONS:").
  reflexivity.
Defined.

(** X19: every header line can be looked up by its own normalized text, in
    any letter case: the lookup returns the token text, from start to end
    inclusive, of the section of that title that starts first in the
    document. *)
Theorem lookup_header_line (doc : Doc) (i : nat) (token : Token) (q : string) :
  tokens doc !! i = Some token -> is_header_at doc i token = true ->
  pystr.lower q = norm_sent doc i ->
  ∃ sec e,
    sec ∈ segment doc ∧ title sec = norm_sent doc i ∧ sec_end sec = Some e
    ∧ (∀ sec', sec' ∈ segment doc -> title sec' = norm_sent doc i ->
               sec_start sec <= sec_start sec')
    ∧ extract_section_text (section_segmenter doc) q =
        Ok (Some (span_text (slice doc (sec_start sec) (e + 1)))).
Proof.
  intros Hi Hh Hq.
  destruct (header_elem_segment doc i token Hi Hh) as (sec0 & Hin0 & Ht0 & _).
  apply list_elem_of_lookup in Hin0 as [j Hj].
  destruct (find_section_first (section_segmenter doc) (segment doc) q j sec0)
    as (j' & sec & e & _ & Hj' & Ht & He & Hmin & Hfind).
  { apply segment_closed. }
  { done. }
  { rewrite Ht0, Hq. apply lower_idem. }
  assert (Hin : sec ∈ segment doc) by by apply list_elem_of_lookup_2 in Hj'.
  exists sec, e. split; [done|].
  rewrite (segment_title_lower doc sec Hin), Hq in Ht.
  split; [done|]. split; [done|]. split; [|exact Hfind].
  intros sec' Hin' Ht'. apply list_elem_of_lookup in Hin' as [k Hk].
  destruct (Nat.lt_trichotomy k j') as [Hlt|[->|Hgt]].
  - exfalso. apply (Hmin k sec' Hlt Hk).
    by rewrite (segment_title_lower doc sec'), Ht', Hq
      by by apply list_elem_of_lookup_2 in Hk.
  - assert (sec = sec') as -> by congruence. lia.
  - destruct (chained_lookup_lt _ _ j' k sec sec' (segment_chained doc)
                Hgt Hj' Hk) as (e' & _ & ? & ?). lia.
Qed.

Lemma lookup_header_line_witness :
  ∃ sec e,
    sec ∈ segment examples.doc_medications ∧ title sec = "medications:"
    ∧ sec_end sec = Some e
    ∧ (∀ sec', sec' ∈ segment examples.doc_medications ->
               title sec' = "medications:" -> sec_start sec <= sec_start sec')
    ∧ extract_section_text (section_segmenter examples.doc_medications)
        "MEDICATIONS:" =
        Ok (Some (span_text (slice examples.doc_medications
                               (sec_start sec) (e + 1)))).
Proof.
  apply (lookup_header_line examples.doc_medications 0
           (mkToken "Medications" false true) "MEDICATIONS:");
    reflexivity.
Defined.

(** X20: the token span of a section is never empty: it has
    [end - start + 1] tokens, and its first token is the token that starts
    the header line. *)
Theorem section_span_tokens (doc : Doc) (sec : Section_) (e : Z) :
  sec ∈ segment doc -> sec_end sec = Some e ->
  length (slice doc (sec_start sec) (e + 1)) = Z.to_nat (e - sec_start sec + 1)
  ∧ (0 < length (slice doc (sec_start sec) (e + 1)))%nat
  ∧ ∃ token, slice doc (sec_start sec) (e + 1) !! 0%nat = Some token
             ∧ tokens doc !! Z.to_nat (sec_start sec) = Some token
             ∧ is_sent_start token = true.
Proof.
  intros Hin He.
  destruct (chained_bounds _ _ sec (segment_chained doc) Hin)
    as (e' & He' & Hse & Hlen).
  assert (e' = e) as -> by congruence.
  assert (Hl : length (slice doc (sec_start sec) (e + 1))
               = Z.to_nat (e - sec_start sec + 1)).
  { rewrite slice_length by lia. f_equal. lia. }
  split; [done|]. split; [lia|].
  destruct (segment_elem_header doc sec Hin) as (i & token & Hi & Hh & _ & Hs).
  apply andb_true_iff in Hh as [Hstart _].
  exists token. rewrite Hs, Nat2Z.id. split; [|done].
  unfold slice. rewrite lookup_take_lt by lia.
  by rewrite lookup_drop, Nat2Z.id, Nat.add_0_r.
Qed.

Lemma section_span_tokens_witness :
  length (slice examples.doc_medications 0 (4 + 1)) = 5%nat.
Proof.
  refine (proj1 (section_span_tokens examples.doc_medications
            {| title := "medications:"; sec_start := 0; sec_end := Some 4 |} 4
            _ eq_refl)).
  apply list_elem_of_here.
Defined.

End SegmenterExtras.

(** ** The processor *)

Section ProcessorExtras.
Import spacy nlp_pipeline.

Lemma strip_empty : pystr.strip "" = "".
Proof. done. Qed.

(** X21: a text that is empty or consists of whitespace is processed as
    the empty text; when the model finds no token in the empty text, the
    resulting document has no section and every lookup returns [None]. *)
Theorem process_text_blank (model : string -> Doc) (text : string) :
  pystr.strip text = "" -> tokens (model "") = [] ->
  process_text model text = process_text model ""
  ∧ sections_ext (process_text model text) = Some []
  ∧ ∀ section_title,
      extract_section_text (process_text model text) section_title = Ok None.
Proof.
  intros Hblank Htok.
  assert (Hp : process_text model text = nlp model "").
  { unfold process_text. rewrite Hblank. simpl (_ =? _).
    by rewrite orb_true_r. }
  assert (Hseg : segment (model "") = []).
  { unfold segment. by rewrite Htok. }
  rewrite Hp. split; [done|]. unfold nlp, section_segmenter. simpl.
  rewrite Hseg. split; [done|]. intros section_title.
  unfold extract_section_text. by simpl.
Qed.

Lemma process_text_blank_witness :
  sections_ext (process_text examples.empty_model "  ") = Some [].
Proof.
  refine (proj1 (proj2 (process_text_blank examples.empty_model "  "
                          eq_refl eq_refl))).
Defined.

(** X22: [extract_entities] without labels returns all entities; with
    labels it returns exactly the entities whose label is in the list; in
    both cases the entities keep their order in the document. *)
Theorem extract_entities_spec (doc : Doc) :
  extract_entities doc None = ents doc
  ∧ (∀ (labels : list string) (ent : Span),
       ent ∈ extract_entities doc (Some labels)
       ↔ ent ∈ ents doc ∧ label_ ent ∈ labels)
  ∧ ∀ labels, sublist (extract_entities doc labels) (ents doc).
Proof.
  unfold extract_entities. split; [|split].
  - induction (ents doc) as [|ent l IH]; simpl; [done|]. by rewrite IH.
  - intros labels ent.
    split.
    + intros Hin%list_elem_of_In%filter_In. destruct Hin as [Hin Hl].
      apply list_elem_of_In in Hin. by apply bool_decide_eq_true in Hl.
    + intros [Hin Hl]. apply list_elem_of_In, filter_In.
      split; [by apply list_elem_of_In|by apply bool_decide_eq_true].
  - intros labels. induction (ents doc) as [|ent l IH]; simpl.
    + apply sublist_nil.
    + destruct (match labels with
                | Some ls => bool_decide (label_ ent ∈ ls)
                | None => true
                end); [by apply sublist_skip|by apply sublist_cons].
Qed.

(** X23: adding the segmenter to a pipeline is idempotent: afterwards the
    pipeline has a component named [section_segmenter], a second call
    changes nothing, and component names that were distinct stay so. *)
Theorem add_section_segmenter_once (l : Language) :
  "section_segmenter" ∈ pipe_names (_add_section_segmenter l)
  ∧ _add_section_segmenter (_add_section_segmenter l)
    = _add_section_segmenter l
  ∧ (NoDup (pipe_names l) -> NoDup (pipe_names (_add_section_segmenter l))).
Proof.
  assert (Hin : "section_segmenter" ∈ pipe_names (_add_section_segmenter l)).
  { unfold _add_section_segmenter. case_bool_decide as Hp; [done|].
    unfold pipe_names, add_pipe. simpl. rewrite fmap_app.
    apply elem_of_app. right. by apply list_elem_of_singleton. }
  split; [done|]. split.
  - unfold _add_section_segmenter at 1. by rewrite bool_decide_eq_true_2.
  - intros Hnd. unfold _add_section_segmenter.
    case_bool_decide as Hp; [done|].
    unfold pipe_names, add_pipe. simpl. rewrite fmap_app.
    apply NoDup_app. split; [done|]. split; [|apply NoDup_singleton].
    intros name Hname [= ->]%list_elem_of_singleton. by apply Hp.
Qed.

(** X24: when the loaded pipeline has no component named
    [section_segmenter], the processor runs the components of the model and
    then the segmenter, so the document it returns carries the sections of
    the tokens. *)
Theorem call_runs_segmenter_last (l : Language) (text : string) :
  "section_segmenter" ∉ pipe_names l ->
  call (_add_section_segmenter l) text = nlp (call l) text
  ∧ sections_ext (call (_add_section_segmenter l) text)
    = Some (segment (call l text)).
Proof.
  intros Hnot.
  assert (Hcall : call (_add_section_segmenter l) text = nlp (call l) text).
  { unfold _add_section_segmenter. rewrite bool_decide_eq_false_2 by done.
    unfold call, add_pipe, nlp. simpl. by rewrite foldl_snoc. }
  by rewrite Hcall.
Qed.

Lemma call_runs_segmenter_last_witness :
  sections_ext
    (call (_add_section_segmenter
             {| make_doc := fun _ => examples.doc_medications;
                pipeline := [] |}) "Medications:")
  = Some (segment examples.doc_medications).
Proof.
  refine (proj2 (call_runs_segmenter_last
                   {| make_doc := fun _ => examples.doc_medications;
                      pipeline := [] |} "Medications:" _)).
  apply not_elem_of_nil.
Defined.

End ProcessorExtras.

(** ** Writer construction and the reader *)

Section WriterExtras.
Import db_writer.

(** X25: the format of a writer is compared in lower case: a writer that
    was created with a format whose lower-case form is [csv] hands every
    sequence in which some record has a field to [to_csv], with the path
    and the index flag it was created with. *)
Theorem init_format_case_insensitive {FS : Type}
    (to_csv : string -> bool -> DataFrame -> FS -> FS * result unit)
    (path fmt : string) (idx ow : bool) (data : list (gmap string value))
    (fs : FS) :
  pystr.lower fmt = "csv" -> Exists (fun row => row ≠ ∅) data ->
  write to_csv (init path fmt idx ow) data fs
  = to_csv path idx (pd_DataFrame data) fs.
Proof.
  intros Hfmt Hrow. destruct data as [|row rest]; [by apply Exists_nil in Hrow|].
  rewrite write_cons. simpl. rewrite Hfmt. simpl (_ =? _).
  destruct (df_empty _) eqn:Hempty; [|done].
  apply df_empty_spec in Hempty as [Hnil|Hall]; [done|].
  apply Exists_exists in Hrow as (r & Hin & Hne).
  rewrite Forall_forall in Hall. by destruct (Hne (Hall r Hin)).
Qed.

Lemma init_format_case_insensitive_witness :
  write examples.to_csv_ok examples.csv_writer examples.one_record ∅
  = examples.to_csv_ok "out/phenotypes.csv" false
      (pd_DataFrame examples.one_record) ∅.
Proof.
  apply (init_format_case_insensitive examples.to_csv_ok
           "out/phenotypes.csv" "CSV" false true examples.one_record ∅).
  - reflexivity.
  - apply Exists_cons_hd. discriminate.
Defined.

(** X26: what the construction of a writer guarantees: a created writer
    has the given fields with the format in lower case, and when overwrite
    is disabled the output file does not exist at that point;
    [FileExistsError] is raised only with overwrite disabled and the output
    file present; the file system is touched by [makedirs] alone, and not
    at all when the path has no directory part or the directory exists. *)
Theorem init_guards {FS : Type} (dirname : string -> string)
    (path_exists : string -> FS -> bool)
    (makedirs : string -> FS -> FS * result unit)
    (path fmt : string) (idx ow : bool) (fs : FS) :
  let out := __init__ dirname path_exists makedirs path fmt idx ow fs in
  (∀ self, out.2 = Created self ->
     self = init path fmt idx ow
     ∧ file_format self = pystr.lower fmt
     ∧ (ow = false -> path_exists path out.1 = false))
  ∧ (∀ msg, out.2 = FileExistsError msg ->
       ow = false ∧ path_exists path out.1 = true)
  ∧ (dirname path = "" ∨ path_exists (dirname path) fs = true -> out.1 = fs)
  ∧ (out.1 = fs ∨ out.1 = (makedirs (dirname path) fs).1).
Proof.
  unfold __init__, _validate_output_path. simpl.
  set (guard := negb (dirname path =? "") && negb (path_exists (dirname path) fs)).
  assert (Hguard : dirname path = "" ∨ path_exists (dirname path) fs = true
                   -> guard = false).
  { unfold guard. intros [Hd|Hd]; rewrite Hd; [done|]. by rewrite andb_false_r. }
  destruct guard.
  - destruct (makedirs (dirname path) fs) as [fs1 [u|e]]; simpl;
      [destruct ow; simpl; [|destruct (path_exists path fs1) eqn:Hex; simpl]|];
      (split_and!;
       [intros self Hs|intros msg Hm|intros Hd; by specialize (Hguard Hd)|by right]);
      try discriminate; try (injection Hs as <-); done.
  - simpl.
    destruct ow; simpl; [|destruct (path_exists path fs) eqn:Hex; simpl];
      (split_and!; [intros self Hs|intros msg Hm|done|by left]);
      try discriminate; try (injection Hs as <-); done.
Qed.

End WriterExtras.
Section ReaderExtras.
Import db_reader.

Lemma check_paths_None (path_exists : string -> bool) (paths : list string) :
  check_paths path_exists paths = None
  ↔ Forall (fun p => path_exists p = true) paths.
Proof.
  induction paths as [|p rest IH]; simpl; [by split|].
  rewrite Forall_cons. destruct (path_exists p); simpl; [|by split; [|intros []]].
  rewrite IH. tauto.
Qed.

Lemma check_paths_Some (path_exists : string -> bool) (paths : list string)
    (e : error) :
  check_paths path_exists paths = Some e ->
  ∃ before p after,
    paths = (before ++ p :: after)%list
    ∧ Forall (fun p => path_exists p = true) before
    ∧ path_exists p = false
    ∧ e = FileNotFoundError ("File not found: " +:+ p).
Proof.
  induction paths as [|p rest IH]; simpl; [done|].
  destruct (path_exists p) eqn:Hp; simpl.
  - intros (before & p' & after & -> & Hb & Hp' & ->)%IH.
    exists (p :: before), p', after. repeat split; try done.
    by apply Forall_cons.
  - intros [= <-]. exists [], p, rest. by repeat split.
Qed.

Lemma read_table_Return {Options : Type}
    (read_csv : string -> Options -> result DataFrame)
    (self : DbReader Options) (path table : string) (df : DataFrame) :
  read_table read_csv self path table = Return df ->
  read_csv path (csv_options self) = Ok df ∧ "patient_id" ∈ df_columns df.
Proof.
  unfold read_table. destruct (read_csv path (csv_options self)) as [df'|e];
    [|done].
  case_bool_decide; [|done]. by intros [= <-].
Qed.

End ReaderExtras.

Section ReaderClaims.
Import db_reader.

(** X27: the construction of a reader succeeds exactly when the four files
    exist; otherwise it raises [FileNotFoundError] for the first path, in
    the order notes, medications, diagnoses, labs, that does not exist. *)
Theorem reader_init_first_missing {Options : Type} (no_options : Options)
    (path_exists : string -> bool) (notes meds diag labs : string)
    (csv_options : option Options) :
  let out := __init__ no_options path_exists notes meds diag labs csv_options in
  ((∃ self, out = Return self)
   ↔ Forall (fun p => path_exists p = true) [notes; meds; diag; labs])
  ∧ (∀ self, out = Return self ->
       notes_path self = notes ∧ meds_path self = meds
       ∧ diag_path self = diag ∧ labs_path self = labs)
  ∧ (∀ e, out = Fail e ->
       ∃ before p after,
         [notes; meds; diag; labs] = (before ++ p :: after)%list
         ∧ Forall (fun p => path_exists p = true) before
         ∧ path_exists p = false
         ∧ e = FileNotFoundError ("File not found: " +:+ p)).
Proof.
  unfold __init__.
  destruct (check_paths path_exists [notes; meds; diag; labs]) as [e|] eqn:Hc.
  - split_and!.
    + split; [by intros [self ?]|]. intros Hall%check_paths_None. congruence.
    + done.
    + intros e' [= <-]. by apply check_paths_Some.
  - split_and!.
    + split; [intros _; by apply check_paths_None|by eexists].
    + by intros self [= <-].
    + done.
Qed.

(** X28: once the notes file is read, [read_notes] returns its records
    exactly when the table has both columns [patient_id] and [note_text];
    otherwise it raises the error that shows the required columns that the
    table lacks, and there is at least one. *)
Theorem read_notes_columns {Options : Type}
    (read_csv : string -> Options -> result DataFrame)
    (to_dict : DataFrame -> list (gmap string value))
    (self : DbReader Options) (df : DataFrame) :
  read_csv (notes_path self) (csv_options self) = Ok df ->
  (read_notes read_csv to_dict self = Return (to_dict df)
   ∧ "patient_id" ∈ df_columns df ∧ "note_text" ∈ df_columns df)
  ∨ (∃ missing, read_notes read_csv to_dict self = Fail (MissingColumns missing)
                ∧ missing ≠ ∅
                ∧ ∀ c, c ∈ missing
                       ↔ (c = "patient_id" ∨ c = "note_text")
                         ∧ c ∉ df_columns df).
Proof.
  intros Hread. unfold read_notes. rewrite Hread. unfold required.
  case_bool_decide as Hsub.
  - left. split; [done|]. split; apply Hsub; set_solver.
  - right. eexists. split; [done|]. split.
    + intros Hempty. apply Hsub. intros c Hc.
      destruct (decide (c ∈ df_columns df)) as [|Hnot]; [done|].
      assert (c ∈ ({[ "patient_id"; "note_text" ]} ∖ df_columns df
                   : gset string)) as Hin by set_solver.
      rewrite Hempty in Hin. set_solver.
    + intros c. set_solver.
Qed.

Lemma read_notes_columns_witness :
  (read_notes examples.read_csv_notes df_rows examples.reader
   = Return (df_rows examples.notes_frame)
   ∧ "patient_id" ∈ df_columns examples.notes_frame
   ∧ "note_text" ∈ df_columns examples.notes_frame)
  ∨ (∃ missing,
       read_notes examples.read_csv_notes df_rows examples.reader
       = Fail (MissingColumns missing)
       ∧ missing ≠ ∅
       ∧ ∀ c, c ∈ missing
              ↔ (c = "patient_id" ∨ c = "note_text")
                ∧ c ∉ df_columns examples.notes_frame).
Proof.
  apply (read_notes_columns examples.read_csv_notes df_rows examples.reader
           examples.notes_frame).
  reflexivity.
Defined.

(** X29: when [read_structured] returns, its result has exactly the keys
    [meds], [diag] and [labs], each bound to the table read from the path
    of the reader, and every one of these tables has the column
    [patient_id]. *)
Theorem read_structured_tables {Options : Type}
    (read_csv : string -> Options -> result DataFrame)
    (self : DbReader Options) (tables : gmap string DataFrame) :
  read_structured read_csv self = Return tables ->
  dom tables = {[ "meds"; "diag"; "labs" ]}
  ∧ (∀ k df, tables !! k = Some df -> "patient_id" ∈ df_columns df)
  ∧ Ok <$> tables !! "meds" = Some (read_csv (meds_path self) (csv_options self))
  ∧ Ok <$> tables !! "diag" = Some (read_csv (diag_path self) (csv_options self))
  ∧ Ok <$> tables !! "labs" = Some (read_csv (labs_path self) (csv_options self)).
Proof.
  unfold read_structured.
  destruct (read_table read_csv self (meds_path self) "medications")
    as [meds|] eqn:Hm; [|done].
  destruct (read_table read_csv self (diag_path self) "diagnoses")
    as [diag|] eqn:Hd; [|done].
  destruct (read_table read_csv self (labs_path self) "labs")
    as [labs|] eqn:Hl; [|done].
  apply read_table_Return in Hm as [Hm Hmc].
  apply read_table_Return in Hd as [Hd Hdc].
  apply read_table_Return in Hl as [Hl Hlc].
  intros [= <-]. split_and!.
  - rewrite !dom_insert_L, dom_empty_L. set_solver.
  - intros k df Hk.
    apply lookup_insert_Some in Hk as [[_ <-]|[_ Hk]]; [done|].
    apply lookup_insert_Some in Hk as [[_ <-]|[_ Hk]]; [done|].
    apply lookup_insert_Some in Hk as [[_ <-]|[_ Hk]]; [done|].
    done.
  - by rewrite Hm.
  - by rewrite Hd.
  - by rewrite Hl.
Qed.

Lemma read_structured_tables_witness :
  ∃ tables,
    read_structured examples.read_csv_notes examples.reader = Return tables
    ∧ dom tables = {[ "meds"; "diag"; "labs" ]}.
Proof.
  eexists. split; [reflexivity|].
  refine (proj1 (read_structured_tables examples.read_csv_notes
                   examples.reader _ eq_refl)).
Defined.

End ReaderClaims.
